(** * valkoma-markdown-preview: the token classifier and the presentation shell

    A shallow embedding of [src/components/valkoma-markdown.tsx]:
    [highlightCode] (the regex-based token classifier), the derived
    statistics, [handleMarkdownChange] and the [ErrorBoundary] component.

    Strings.  A JavaScript string is a sequence of UTF-16 code units.  The
    development works with the code units 0..255 (the Latin-1 range), for
    which every built-in used by the source ([toLowerCase], [trim], the
    regular-expression classes) is closed and is given exactly; a string is a
    [list ascii], the [ascii] being the code unit.

    Regular expressions.  The patterns of the source are kept as syntax trees
    and run by a backtracking matcher that follows the ECMAScript
    specification (22.2.2, "Pattern Semantics"): matchers take a position and
    a continuation, sequences run right-to-left inside a lookbehind, and
    [RepeatMatcher] rejects an empty iteration.  The loops of the matcher, of
    the global replace and of the split run on a budget; the budgets are
    shown never to be used up ([matcher_budget], [replaceAll_total],
    [stats_value]). *)

From Stdlib Require Import String.
From Stdlib Require Import List Ascii Bool Arith Lia.
Import ListNotations.

(** ** Strings *)

Definition jsstring : Type := list ascii.

(** A literal of the source that holds no double quote. *)
Definition lit (s : string) : jsstring := list_ascii_of_string s.
Arguments lit s%_string.

Definition dquote : ascii := "034"%char.
Definition newline : ascii := "010"%char.

Definition code_of (c : ascii) : nat := nat_of_ascii c.

Definition in_range (lo hi : nat) (c : ascii) : bool :=
  (lo <=? code_of c) && (code_of c <=? hi).

Fixpoint jsstring_eqb (s t : jsstring) : bool :=
  match s, t with
  | [], [] => true
  | c :: s', d :: t' => Ascii.eqb c d && jsstring_eqb s' t'
  | _, _ => false
  end.

(** [S.substring(i, j)] for [i <= j]. *)
Definition substring (s : jsstring) (i j : nat) : jsstring :=
  firstn (j - i) (skipn i s).

(** ** Character classes of the patterns *)

(** LineTerminator: LF and CR (U+2028 and U+2029 lie outside the range). *)
Definition isLineTerminator (c : ascii) : bool :=
  (code_of c =? 10) || (code_of c =? 13).

(** WhiteSpace and LineTerminator, what [\s] and [trim] recognise: TAB, LF,
    VT, FF, CR, SP and NBSP. *)
Definition isWhiteSpace (c : ascii) : bool :=
  in_range 9 13 c || (code_of c =? 32) || (code_of c =? 160).

(** [\d] *)
Definition isDigit (c : ascii) : bool := in_range 48 57 c.

(** WordCharacters, what [\w] and [\b] recognise: [A-Za-z0-9_]. *)
Definition isWordChar (c : ascii) : bool :=
  in_range 97 122 c || in_range 65 90 c || isDigit c || (code_of c =? 95).

(** [.] without the [s] flag. *)
Definition dot (c : ascii) : bool := negb (isLineTerminator c).

(** [[^c]] *)
Definition notChar (d : ascii) (c : ascii) : bool := negb (Ascii.eqb c d).

(** [[\s\S]] *)
Definition anyChar (c : ascii) : bool := isWhiteSpace c || negb (isWhiteSpace c).

(** ** Patterns *)

Inductive regex : Type :=
| Empty                                   (* the empty alternative *)
| Chr (c : ascii)                         (* a pattern character *)
| Cls (p : ascii -> bool)                 (* a class, a class escape or [.] *)
| Seq (r1 r2 : regex)                     (* r1 r2 *)
| Alt (r1 r2 : regex)                     (* r1 | r2 *)
| Repeat (min : nat) (max : option nat) (greedy : bool) (r : regex)
| Group (r : regex)                       (* ( r ) *)
| WordBoundary                            (* \b *)
| EndOfInput                              (* $ *)
| Look (behind negative : bool) (r : regex). (* (?= (?! (?<= (?<! *)

(** The quantifiers of the source. *)
Definition Star (r : regex) : regex := Repeat 0 None true r.      (* r*  *)
Definition StarLazy (r : regex) : regex := Repeat 0 None false r. (* r*? *)
Definition Plus (r : regex) : regex := Repeat 1 None true r.      (* r+  *)
Definition Opt (r : regex) : regex := Repeat 0 (Some 1) true r.   (* r?  *)

(** A sequence of terms. *)
Fixpoint seqs (rs : list regex) : regex :=
  match rs with
  | [] => Empty
  | [r] => r
  | r :: rs' => Seq r (seqs rs')
  end.

(** A run of pattern characters. *)
Definition Lit (s : jsstring) : regex := seqs (map Chr s).

(** ** The matcher *)

(** A position in the input: the code units before [endIndex], the nearest
    first, and the code units from [endIndex] on. *)
Record Pos : Type := mkPos { before : list ascii; after : list ascii }.

Definition endIndex (x : Pos) : nat := length (before x).

Definition startOf (s : jsstring) : Pos := mkPos [] s.

Inductive direction : Type := Forward | Backward.

(** The result of a matcher: a match with its end position, the failure of
    the specification, or [Exhausted] when the iteration budget of a
    quantifier ran out, which is kept apart from a failure so that it is
    never mistaken for one. *)
Inductive MatchResult : Type :=
| Matched (y : Pos)
| Failure
| Exhausted.

(** CharacterSetMatcher: consume one code unit in the direction. *)
Definition advance (d : direction) (p : ascii -> bool) (x : Pos) : option Pos :=
  match d with
  | Forward =>
      match after x with
      | c :: a => if p c then Some (mkPos (c :: before x) a) else None
      | [] => None
      end
  | Backward =>
      match before x with
      | c :: b => if p c then Some (mkPos b (c :: after x)) else None
      | [] => None
      end
  end.

(** IsWordChar(e - 1) and IsWordChar(e). *)
Definition wordBefore (x : Pos) : bool :=
  match before x with c :: _ => isWordChar c | [] => false end.
Definition wordAfter (x : Pos) : bool :=
  match after x with c :: _ => isWordChar c | [] => false end.

(** A matcher of the specification: a position and a continuation. *)
Definition Matcher : Type := Pos -> (Pos -> MatchResult) -> MatchResult.

(** RepeatMatcher(m, min, max, greedy, x, c); [max = None] is no upper bound.
    An iteration that matches the empty string once [min] is used up fails. *)
Fixpoint repeatMatcher (m : Matcher) (fuel min : nat) (max : option nat)
    (greedy : bool) (x : Pos) (c : Pos -> MatchResult) {struct fuel}
    : MatchResult :=
  match fuel with
  | 0 => Exhausted
  | S fuel' =>
      match max with
      | Some 0 => c x
      | _ =>
          let d := fun y : Pos =>
            if (min =? 0) && (endIndex y =? endIndex x) then Failure
            else repeatMatcher m fuel' (pred min) (option_map pred max)
                   greedy y c in
          if negb (min =? 0) then m x d
          else if greedy then
            match m x d with
            | Failure => c x
            | z => z
            end
          else
            match c x with
            | Failure => m x d
            | z => z
            end
      end
  end.

Fixpoint matcher (r : regex) (d : direction) (n : nat) {struct r} : Matcher :=
  fun x k =>
  match r with
  | Empty => k x
  | Chr c =>
      match advance d (Ascii.eqb c) x with Some y => k y | None => Failure end
  | Cls p =>
      match advance d p x with Some y => k y | None => Failure end
  | Seq r1 r2 =>
      match d with
      | Forward => matcher r1 d n x (fun y => matcher r2 d n y k)
      | Backward => matcher r2 d n x (fun y => matcher r1 d n y k)
      end
  | Alt r1 r2 =>
      match matcher r1 d n x k with
      | Failure => matcher r2 d n x k
      | z => z
      end
  | Repeat min max greedy r1 =>
      repeatMatcher (matcher r1 d n) (min + n) min max greedy x k
  | Group r1 => matcher r1 d n x k
  | WordBoundary =>
      if xorb (wordBefore x) (wordAfter x) then k x else Failure
  | EndOfInput =>
      match after x with [] => k x | _ :: _ => Failure end
  | Look behind negative r1 =>
      match matcher r1 (if behind then Backward else Forward) n x
              (fun y => Matched y) with
      | Matched _ => if negative then Failure else k x
      | Failure => if negative then k x else Failure
      | Exhausted => Exhausted
      end
  end.

(** The iteration budget of a quantifier: once its lower bound is used up an
    iteration that does not move [endIndex] is rejected, so there are at most
    as many further iterations as code units.  [matcher_budget] shows that
    the budget is never used up. *)
Definition budget (s : jsstring) : nat := S (length s).

(** ** RegExpBuiltinExec and the global replace *)

Inductive ExecResult : Type :=
| Found (start stop : Pos)
| NotFound
| ExecExhausted.

(** Try the pattern at [lastIndex], then at each later index up to the
    length of the input. *)
Fixpoint exec (r : regex) (n : nat) (b a : list ascii) {struct a} : ExecResult :=
  match matcher r Forward n (mkPos b a) (fun y => Matched y) with
  | Matched y => Found (mkPos b a) y
  | Exhausted => ExecExhausted
  | Failure =>
      match a with
      | [] => NotFound
      | c :: a' => exec r n (c :: b) a'
      end
  end.

(** The loop of RegExp.prototype[Symbol.replace] for a global pattern: the
    list of (index, end index) of the successive matches.  After an empty
    match [lastIndex] is advanced by one; past the length, exec gives null. *)
Fixpoint collect (fuel : nat) (r : regex) (n : nat) (x : Pos)
    : option (list (nat * nat)) :=
  match fuel with
  | 0 => None
  | S fuel' =>
      match exec r n (before x) (after x) with
      | NotFound => Some []
      | ExecExhausted => None
      | Found s e =>
          let item := (endIndex s, endIndex e) in
          if endIndex e =? endIndex s then
            match advance Forward (fun _ => true) e with
            | None => Some [item]
            | Some x' => option_map (cons item) (collect fuel' r n x')
            end
          else option_map (cons item) (collect fuel' r n e)
      end
  end.

(** A replacement template: text, and [$1]. *)
Inductive template_item : Type :=
| TText (s : jsstring)
| TGroup1.

Definition template : Type := list template_item.

(** GetSubstitution.  In every pattern of the source that is replaced with a
    [$1] the one capturing group encloses all that the pattern consumes (what
    stands outside it is zero-width), so [$1] is the matched text. *)
Definition getSubstitution (t : template) (matched : jsstring) : jsstring :=
  flat_map (fun i => match i with TText s => s | TGroup1 => matched end) t.

(** The second loop of RegExp.prototype[Symbol.replace]. *)
Fixpoint accumulate (s : jsstring) (t : template) (results : list (nat * nat))
    (nextSourcePosition : nat) : jsstring :=
  match results with
  | [] => substring s nextSourcePosition (length s)
  | (position, stop) :: rest =>
      if nextSourcePosition <=? position then
        substring s nextSourcePosition position
          ++ getSubstitution t (substring s position stop)
          ++ accumulate s t rest stop
      else accumulate s t rest nextSourcePosition
  end.

(** [s.replace(/r/g, t)]; [None] when a budget ran out. *)
Definition replaceAll (r : regex) (t : template) (s : jsstring) : option jsstring :=
  match collect (length s + 2) r (budget s) (startOf s) with
  | Some results => Some (accumulate s t results 0)
  | None => None
  end.

(** ** highlightCode *)

Open Scope string_scope.

(** The [keywords] object literal: its own properties. *)
Definition keywords : list (jsstring * list jsstring) :=
  [ (lit "javascript",
      map lit ["function"; "const"; "let"; "var"; "if"; "else"; "for"; "while";
               "return"; "class"; "import"; "export"; "async"; "await"; "try";
               "catch"; "finally"; "new"; "this"]);
    (lit "typescript",
      map lit ["function"; "const"; "let"; "var"; "if"; "else"; "for"; "while";
               "return"; "class"; "import"; "export"; "async"; "await"; "try";
               "catch"; "finally"; "new"; "this"; "interface"; "type"; "enum";
               "implements"; "readonly"; "public"; "private"; "protected";
               "as"; "typeof"]);
    (lit "python",
      map lit ["def"; "class"; "if"; "else"; "elif"; "for"; "while"; "return";
               "import"; "from"; "as"; "try"; "except"; "with"; "lambda";
               "yield"; "self"]);
    (lit "java",
      map lit ["public"; "private"; "protected"; "class"; "interface"; "if";
               "else"; "for"; "while"; "return"; "import"; "package"; "static";
               "final"; "void"; "new"; "extends"; "implements"]);
    (lit "css",
      map lit ["color"; "background"; "margin"; "padding"; "border"; "width";
               "height"; "display"; "position"; "flex"; "grid"; "align";
               "justify"; "z-index"; "font"; "text"; "line-height"]);
    (lit "html",
      map lit ["div"; "span"; "p"; "h1"; "h2"; "h3"; "body"; "head"; "html";
               "script"; "style"; "link"; "meta"; "title"; "input"; "form";
               "button"]);
    (lit "bash",
      map lit ["cd"; "ls"; "mkdir"; "rm"; "touch"; "echo"; "cat"; "pwd";
               "chmod"; "chown"; "sudo"; "apt"; "brew"; "mv"; "cp"; "kill";
               "grep"; "tail"; "head"; "export"; "source"]);
    (lit "git",
      map lit ["git"; "clone"; "commit"; "push"; "pull"; "status"; "checkout";
               "merge"; "rebase"; "branch"; "log"; "diff"; "add"; "init";
               "remote"; "fetch"; "tag"; "stash"; "reset"]);
    (lit "terminal",
      map lit ["$"; "#"; "~"; ">"; "./"; "../"; "bash"; "zsh"; "sh"; "node";
               "npm"; "yarn"; "pnpm"]) ].

(** [keywords] is an ordinary object, so a property that is not its own is
    looked up on [Object.prototype]; these are the properties found there,
    each a function, or for [__proto__] the prototype object itself. *)
Definition Object_prototype : list jsstring :=
  map lit ["constructor"; "__defineGetter__"; "__defineSetter__";
           "hasOwnProperty"; "__lookupGetter__"; "__lookupSetter__";
           "isPrototypeOf"; "propertyIsEnumerable"; "toString"; "valueOf";
           "__proto__"; "toLocaleString"].

Close Scope string_scope.

(** What [keywords[key]] can be. *)
Inductive value : Type :=
| Undefined
| StringArray (words : list jsstring)
| Inherited.                    (* a function or object of Object.prototype *)

Fixpoint own_property (key : jsstring) (o : list (jsstring * list jsstring))
    : option (list jsstring) :=
  match o with
  | [] => None
  | (k, v) :: o' => if jsstring_eqb k key then Some v else own_property key o'
  end.

(** [keywords[key]] *)
Definition get (key : jsstring) : value :=
  match own_property key keywords with
  | Some words => StringArray words
  | None =>
      if existsb (jsstring_eqb key) Object_prototype then Inherited
      else Undefined
  end.

(** [v || []]: [undefined] is the one falsy value here. *)
Definition or_empty (v : value) : value :=
  match v with
  | Undefined => StringArray []
  | _ => v
  end.

(** [toLowerCase] on one code unit: A-Z, and the capital letters U+00C0 to
    U+00DE but for the multiplication sign U+00D7. *)
Definition lower_unit (c : ascii) : ascii :=
  if in_range 65 90 c || (in_range 192 222 c && negb (code_of c =? 215))
  then ascii_of_nat (code_of c + 32)
  else c.

Definition toLowerCase (s : jsstring) : jsstring := map lower_unit s.

(** The replacement of a pass: an opening span tag of class code-NAME, [$1],
    and the closing span tag. *)
Definition span_open (name : jsstring) : jsstring :=
  lit "<span class=" ++ [dquote] ++ lit "code-" ++ name ++ [dquote] ++ lit ">".
Definition span_close : jsstring := lit "</span>".
Definition wrap_in (name : jsstring) : template :=
  [TText (span_open name); TGroup1; TText span_close].

(** The five patterns of the escape. *)
Definition amp : ascii := "&"%char.
Definition lt : ascii := "<"%char.
Definition gt : ascii := ">"%char.
Definition apos : ascii := "039"%char.
Definition backtick : ascii := "`"%char.

(** The pattern of the string pass (line 127): one group of three
    alternatives, each a delimiter, any run of code units other than the
    delimiter (greedy, line terminators included), and the delimiter again;
    the delimiters are the backtick, the double quote and the apostrophe. *)
Definition delimited (q : ascii) : regex :=
  seqs [Chr q; Star (Cls (notChar q)); Chr q].
Definition string_pattern : regex :=
  Group (Alt (delimited backtick) (Alt (delimited dquote) (delimited apos))).

(** The pattern of the comment pass (line 131): one group of three
    alternatives: two slashes and the rest of the line; slash-star, the
    shortest run of any code units, star-slash; a hash and the rest of the
    line.  The rest of a line is a greedy run of code units other than LF. *)
Definition comment_pattern : regex :=
  Group (Alt (seqs [Lit (lit "//"); Star (Cls (notChar newline))])
        (Alt (seqs [Lit (lit "/*"); StarLazy (Cls anyChar); Lit (lit "*/")])
             (seqs [Chr "#"; Star (Cls (notChar newline))]))).

(** The start of both lookbehinds (lines 137 and 143): the text of an opening
    span tag up to code- , a greedy run of code units other than the double
    quote, then the double quote and the closing angle bracket. *)
Definition open_tag_pattern : list regex :=
  [Lit (lit "<span class=" ++ [dquote] ++ lit "code-");
   Star (Cls (notChar dquote));
   Lit ([dquote] ++ lit ">")].

(** The negative lookahead of lines 137 and 143: a greedy run of code units
    other than the opening angle bracket, then a closing span tag. *)
Definition not_before_close : regex :=
  Look false true (seqs [Star (Cls (notChar lt)); Lit (lit "</span>")]).

(** The pattern of the number pass (line 137): a negative lookbehind for an
    opening span tag followed by a greedy run of [.]; a word boundary; the
    group: one or more digits, an optional full stop, any digits; a word
    boundary; the negative lookahead. *)
Definition number_pattern : regex :=
  seqs [Look true true (seqs (open_tag_pattern ++ [Star (Cls dot)]));
        WordBoundary;
        Group (seqs [Plus (Cls isDigit); Opt (Chr "."); Star (Cls isDigit)]);
        WordBoundary;
        not_before_close].

(** The keyword as pattern source, as [new RegExp] reads it between the
    parentheses: [$] is the end-of-input assertion, [.] any code unit but a
    line terminator, and the other characters of the table stand for
    themselves ([keyword_characters]: the table holds no other syntax
    character). *)
Definition keyword_atom (c : ascii) : regex :=
  if Ascii.eqb c "$" then EndOfInput
  else if Ascii.eqb c "." then Cls dot
  else Chr c.
Definition keyword_source (keyword : jsstring) : regex :=
  seqs (map keyword_atom keyword).

(** The pattern built for a keyword (line 143): as the number pattern, with a
    lazy run of [.] in the lookbehind and the keyword in the group. *)
Definition keyword_pattern (keyword : jsstring) : regex :=
  seqs [Look true true (seqs (open_tag_pattern ++ [StarLazy (Cls dot)]));
        WordBoundary;
        Group (keyword_source keyword);
        WordBoundary;
        not_before_close].

(** What a call of [highlightCode] comes to; [highlightCode_outcome] shows
    that [OutOfBudget] never occurs. *)
Inductive outcome : Type :=
| Returns (html : jsstring)
| ThrowsTypeError
| OutOfBudget.

(** The five replaces of the escape. *)
Definition escapeHtml (code : jsstring) : option jsstring :=
  match replaceAll (Chr amp) [TText (lit "&amp;")] code with
  | None => None
  | Some s1 =>
  match replaceAll (Chr lt) [TText (lit "&lt;")] s1 with
  | None => None
  | Some s2 =>
  match replaceAll (Chr gt) [TText (lit "&gt;")] s2 with
  | None => None
  | Some s3 =>
  match replaceAll (Chr dquote) [TText (lit "&quot;")] s3 with
  | None => None
  | Some s4 => replaceAll (Chr apos) [TText (lit "&#39;")] s4
  end end end end.

(** [langKeywords.forEach(...)] on an array. *)
Fixpoint forEach_keyword (words : list jsstring) (highlightedCode : jsstring)
    : option jsstring :=
  match words with
  | [] => Some highlightedCode
  | keyword :: rest =>
      match replaceAll (keyword_pattern keyword) (wrap_in (lit "keyword"))
              highlightedCode with
      | Some h => forEach_keyword rest h
      | None => None
      end
  end.

(** The string, comment and number passes. *)
Definition classify (escaped : jsstring) : option jsstring :=
  match replaceAll string_pattern (wrap_in (lit "string")) escaped with
  | None => None
  | Some s1 =>
  match replaceAll comment_pattern (wrap_in (lit "comment")) s1 with
  | None => None
  | Some s2 => replaceAll number_pattern (wrap_in (lit "number")) s2
  end end.

Definition highlightCode (code language : jsstring) : outcome :=
  match escapeHtml code with
  | None => OutOfBudget
  | Some escaped =>
      let langKeywords := or_empty (get (toLowerCase language)) in
      match classify escaped with
      | None => OutOfBudget
      | Some highlightedCode =>
          match langKeywords with
          | StringArray words =>
              match forEach_keyword words highlightedCode with
              | Some result => Returns result
              | None => OutOfBudget
              end
          | _ => ThrowsTypeError   (* langKeywords.forEach is not a function *)
          end
      end
  end.

(** ** The derived statistics *)

Record MarkdownStats : Type :=
  { characters : nat; words : nat; lines : nat }.

(** [String.prototype.trim]: white space and line terminators are removed
    from both ends. *)
Fixpoint trimStart (s : jsstring) : jsstring :=
  match s with
  | c :: s' => if isWhiteSpace c then trimStart s' else s
  | [] => []
  end.

Definition trim (s : jsstring) : jsstring := rev (trimStart (rev (trimStart s))).

(** [/\s+/] *)
Definition whitespace_run : regex := Plus (Cls isWhiteSpace).

(** The loop of RegExp.prototype[Symbol.split] with no limit: [p] is the
    start of the piece being read, [x] the position [q] where the splitter is
    tried (sticky, so at [q] only). *)
Fixpoint split_loop (fuel : nat) (r : regex) (n : nat) (s : jsstring)
    (p : nat) (x : Pos) : option (list jsstring) :=
  match fuel with
  | 0 => None
  | S fuel' =>
      match after x with
      | [] => Some [substring s p (length s)]
      | c :: a =>
          let next := mkPos (c :: before x) a in
          match matcher r Forward n x (fun y => Matched y) with
          | Exhausted => None
          | Failure => split_loop fuel' r n s p next
          | Matched y =>
              let e := Nat.min (endIndex y) (length s) in
              if e =? p then split_loop fuel' r n s p next
              else option_map (cons (substring s p (endIndex x)))
                     (split_loop fuel' r n s e y)
          end
      end
  end.

(** [s.split(r)] for a pattern [r]. *)
Definition split (r : regex) (s : jsstring) : option (list jsstring) :=
  match s with
  | [] =>
      match matcher r Forward (budget s) (startOf s) (fun y => Matched y) with
      | Matched _ => Some []
      | Failure => Some [s]
      | Exhausted => None
      end
  | _ :: _ => split_loop (2 * length s + 2) r (budget s) s 0 (startOf s)
  end.

(** [s.split(sep)] for a separator of one code unit. *)
Fixpoint split_unit (sep : ascii) (s : jsstring) : list jsstring :=
  match s with
  | [] => [[]]
  | c :: s' =>
      if Ascii.eqb c sep then [] :: split_unit sep s'
      else
        match split_unit sep s' with
        | piece :: rest => (c :: piece) :: rest
        | [] => [[c]]
        end
  end.

(** The body of the [useMemo]; [None] when a budget ran out. *)
Definition stats (markdown : jsstring) : option MarkdownStats :=
  let characters := length markdown in
  let words :=
    match trim markdown with
    | [] => Some 0                       (* the empty string is falsy *)
    | _ :: _ => option_map (@length jsstring) (split whitespace_run (trim markdown))
    end in
  let lines := length (split_unit newline markdown) in
  match words with
  | Some w => Some {| characters := characters; words := w; lines := lines |}
  | None => None
  end.

(** ** The presentation shell *)

Inductive variant : Type := Default | Destructive.

Record Toast : Type :=
  { title : jsstring; description : jsstring; variant_of : variant }.

(** The state of [ValkomaMarkdown]: the document, and the notices raised so
    far, the latest first. *)
Record Shell : Type := { markdown : jsstring; toasts : list Toast }.

Definition toast (t : Toast) (st : Shell) : Shell :=
  {| markdown := markdown st; toasts := t :: toasts st |}.

Definition setMarkdown (value : jsstring) (st : Shell) : Shell :=
  {| markdown := value; toasts := toasts st |}.

Definition content_too_large : Toast :=
  {| title := lit "Content too large";
     description :=
       lit "Please keep content under 50,000 characters for optimal performance.";
     variant_of := Destructive |}.

(** The character limit of line 164. *)
#[warnings="-abstract-large-number"]
Definition character_limit : nat := 50000.

Definition handleMarkdownChange (value : jsstring) (st : Shell) : Shell :=
  if character_limit <? length value then toast content_too_large st
  else setMarkdown value st.

(** ** The error boundary *)

Definition Error : Type := jsstring.

Record BoundaryState : Type := { hasError : bool; error : option Error }.

(** The constructor. *)
Definition initialState : BoundaryState := {| hasError := false; error := None |}.

Definition getDerivedStateFromError (e : Error) : BoundaryState :=
  {| hasError := true; error := Some e |}.

(** [componentDidCatch] writes to the console. *)
Definition componentDidCatch (e : Error) (console : list Error) : list Error :=
  e :: console.

(** What [render] returns: the static panel, or the children. *)
Inductive rendered (A : Type) : Type :=
| ErrorPanel
| Children (children : A).
Arguments ErrorPanel {A}.
Arguments Children {A} children.

Definition render {A : Type} (st : BoundaryState) (children : A) : rendered A :=
  if hasError st then ErrorPanel else Children children.

(** The [onClick] of the button of the panel: [setState({ hasError: false })],
    which is merged into the state. *)
Definition tryAgain (st : BoundaryState) : BoundaryState :=
  {| hasError := false; error := error st |}.

(** What rendering the children comes to. *)
Inductive attempt (A : Type) : Type :=
| Produced (output : A)
| Threw (e : Error).
Arguments Produced {A} output.
Arguments Threw {A} e.

(** What is displayed in the place of the boundary; [Crashed] when the error
    leaves the boundary for the enclosing tree. *)
Inductive display (A : Type) : Type :=
| Panel
| Output (output : A)
| Crashed.
Arguments Panel {A}.
Arguments Output {A} output.
Arguments Crashed {A}.

(** One render of the boundary by React: the boundary is rendered; when it
    returns its children and they throw, the state derived from the error is
    taken, the error is reported to [componentDidCatch], and the boundary is
    rendered again. *)
Definition renderBoundary {A : Type} (st : BoundaryState) (console : list Error)
    (children : attempt A) : BoundaryState * list Error * display A :=
  match render st children with
  | ErrorPanel => (st, console, Panel)
  | Children (Produced output) => (st, console, Output output)
  | Children (Threw e) =>
      let st' := getDerivedStateFromError e in
      let console' := componentDidCatch e console in
      match render st' children with
      | ErrorPanel => (st', console', Panel)
      | Children (Produced output) => (st', console', Output output)
      | Children (Threw _) => (st', console', Crashed)
      end
  end.

(** ** Notions of the specification *)

(** The number of maximal runs of code units that are not white space:
    a run starts at a code unit that is not white space and does not follow
    one. *)
Fixpoint count_runs_from (inRun : bool) (s : jsstring) : nat :=
  match s with
  | [] => 0
  | c :: s' =>
      if isWhiteSpace c then count_runs_from false s'
      else (if inRun then 0 else 1) + count_runs_from true s'
  end.

Definition count_runs (s : jsstring) : nat := count_runs_from false s.

(** No word when the trimmed string is empty, and else the number of runs of
    the trimmed string. *)
Definition count_words (s : jsstring) : nat :=
  match trim s with
  | [] => 0
  | _ :: _ => count_runs (trim s)
  end.

(** The number of occurrences of a code unit. *)
Definition occurrences (c : ascii) (s : jsstring) : nat :=
  length (filter (fun d => Ascii.eqb d c) s).

(** [s] starts with [p]: what is left of [s]. *)
Fixpoint strip_prefix (p s : jsstring) : option jsstring :=
  match p, s with
  | [], _ => Some s
  | c :: p', d :: s' => if Ascii.eqb c d then strip_prefix p' s' else None
  | _ :: _, [] => None
  end.

(** [needle] occurs in [s]. *)
Fixpoint occurs (needle s : jsstring) : bool :=
  match strip_prefix needle s with
  | Some _ => true
  | None => match s with [] => false | _ :: s' => occurs needle s' end
  end.

(** The tags that the classifier inserts. *)
Definition span_tags : list jsstring :=
  [span_open (lit "string"); span_open (lit "comment");
   span_open (lit "number"); span_open (lit "keyword"); span_close].

Fixpoint strip_any (tags : list jsstring) (s : jsstring) : option jsstring :=
  match tags with
  | [] => None
  | t :: tags' =>
      match strip_prefix t s with
      | Some rest => Some rest
      | None => strip_any tags' s
      end
  end.

(** Every angle bracket of [s] belongs to one of the inserted tags: [s] reads
    as tags and code units other than angle brackets. *)
Fixpoint only_span_tags (fuel : nat) (s : jsstring) : bool :=
  match fuel with
  | 0 => false
  | S fuel' =>
      match s with
      | [] => true
      | c :: s' =>
          if Ascii.eqb c lt then
            match strip_any span_tags s with
            | Some rest => only_span_tags fuel' rest
            | None => false
            end
          else if Ascii.eqb c gt then false
          else only_span_tags fuel' s'
      end
  end.

Definition well_tagged (s : jsstring) : bool := only_span_tags (S (length s)) s.

(** The string, comment and number passes after the escape, and no keyword
    pass. *)
Definition without_keywords (code : jsstring) : outcome :=
  match escapeHtml code with
  | None => OutOfBudget
  | Some escaped =>
      match classify escaped with
      | None => OutOfBudget
      | Some highlightedCode => Returns highlightedCode
      end
  end.

(** The white space at the start of a string. *)
Fixpoint leading (s : jsstring) : jsstring :=
  match s with
  | c :: s' => if isWhiteSpace c then c :: leading s' else []
  | [] => []
  end.

(** The number of maximal runs of white space: a run starts at a white space
    that does not follow one. *)
Fixpoint ws_runs_from (prevWs : bool) (s : jsstring) : nat :=
  match s with
  | [] => 0
  | c :: s' =>
      if isWhiteSpace c then (if prevWs then 0 else 1) + ws_runs_from true s'
      else ws_runs_from false s'
  end.

(** Whether the last code unit is white space, [prev] for the empty string. *)
Fixpoint ends_ws (prev : bool) (s : jsstring) : bool :=
  match s with
  | [] => prev
  | c :: s' => ends_ws (isWhiteSpace c) s'
  end.

(** The code units of the input, and those left in a direction. *)
Definition total (x : Pos) : nat := length (before x) + length (after x).

Definition room (d : direction) (x : Pos) : nat :=
  match d with
  | Forward => length (after x)
  | Backward => length (before x)
  end.

(** [y] is [x] moved over some code units [u] in the direction. *)
Definition reach (d : direction) (x y : Pos) : Prop :=
  match d with
  | Forward => exists u, after x = u ++ after y /\ before y = rev u ++ before x
  | Backward => exists u, before x = u ++ before y /\ after y = rev u ++ after x
  end.

(** The entity of a code unit, the code unit itself when it has none. *)
Definition entity (c : ascii) : jsstring :=
  if Ascii.eqb c amp then lit "&amp;"
  else if Ascii.eqb c lt then lit "&lt;"
  else if Ascii.eqb c gt then lit "&gt;"
  else if Ascii.eqb c dquote then lit "&quot;"
  else if Ascii.eqb c apos then lit "&#39;"
  else [c].

(** One code unit replaced by a text, the others kept. *)
Definition replace_unit (c : ascii) (text : jsstring) (d : ascii) : jsstring :=
  if Ascii.eqb c d then text else [d].

(** The matches of the pattern of one code unit [c], from the index [base]. *)
Fixpoint hits (c : ascii) (base : nat) (s : jsstring) : list (nat * nat) :=
  match s with
  | [] => []
  | d :: s' =>
      if Ascii.eqb c d then (base, S base) :: hits c (S base) s'
      else hits c (S base) s'
  end.

(** What a matcher hands to its continuation lies in its direction. *)
Definition reaches (d : direction) (m : Matcher) : Prop :=
  forall x k z, m x k = Matched z -> exists y, reach d x y /\ k y = Matched z.

(** A matcher that keeps within the budget when its continuation does. *)
Definition within_budget (d : direction) (n : nat) (m : Matcher) : Prop :=
  forall x k,
    (forall y, reach d x y -> k y <> Exhausted) ->
    total x < n ->
    m x k <> Exhausted.

(** The first alternative of the string pattern alone. *)
Definition backtick_pattern : regex := Group (delimited backtick).

(** A code unit that is neither a double quote nor an apostrophe. *)
Definition no_quote (c : ascii) : Prop := c <> dquote /\ c <> apos.

(** [out] is [s] with tags of the classifier inserted into it, one after
    the other, each anywhere in what the insertions before it gave. *)
Inductive Woven (s : jsstring) : jsstring -> Prop :=
| woven_none : Woven s s
| woven_insert (u v t : jsstring) :
    Woven s (u ++ v) -> In t span_tags -> Woven s (u ++ t ++ v).

(** The matches of a replace follow one another from the index [k] on. *)
Fixpoint ordered (k : nat) (results : list (nat * nat)) : Prop :=
  match results with
  | [] => True
  | (position, stop) :: rest =>
      k <= position /\ position <= stop /\ ordered stop rest
  end.

(** The names of the four classes. *)
Definition class_names : list jsstring :=
  [lit "string"; lit "comment"; lit "number"; lit "keyword"].

(** SyntaxCharacter of the pattern grammar. *)
Definition isSyntaxCharacter (c : ascii) : bool :=
  existsb (Ascii.eqb c) (lit "^$\.*+?()[]{}|").

(** ** The other actions of the shell *)

Definition content_pasted : Toast :=
  {| title := lit "Content pasted";
     description := lit "Markdown preview updated automatically.";
     variant_of := Default |}.

Definition copied_to_clipboard : Toast :=
  {| title := lit "Copied to clipboard";
     description := lit "Markdown content has been copied successfully.";
     variant_of := Default |}.

Definition copy_failed : Toast :=
  {| title := lit "Copy failed";
     description := lit "Unable to copy content to clipboard.";
     variant_of := Destructive |}.

Definition download_started : Toast :=
  {| title := lit "Download started";
     description := lit "Your markdown file is being downloaded.";
     variant_of := Default |}.

Definition content_cleared : Toast :=
  {| title := lit "Content cleared";
     description := lit "Editor has been reset.";
     variant_of := Default |}.

(** [handlePaste]: the pasted text is read and, when it is not the empty
    string, announced; the document is not touched here. *)
Definition handlePaste (pastedText : jsstring) (st : Shell) : Shell :=
  match pastedText with
  | [] => st
  | _ :: _ => toast content_pasted st
  end.

(** [clearContent] *)
Definition clearContent (st : Shell) : Shell :=
  toast content_cleared (setMarkdown [] st).

(** What [new Blob([markdown], { type })] holds, and a file handed to the
    browser by the click on the anchor. *)
Record Blob : Type := { content : jsstring; type : jsstring }.
Record SavedFile : Type := { download : jsstring; blob : Blob }.

(** The shell with what its actions reach outside it: the system clipboard
    and the files handed to the browser, the latest first. *)
Record World : Type :=
  { shell : Shell; clipboard : jsstring; saved : list SavedFile }.

(** [copyToClipboard]; [granted] tells whether [writeText] resolves or
    rejects.  The write and the notice that follows it are taken as one
    step. *)
Definition copyToClipboard (granted : bool) (w : World) : World :=
  if granted then
    {| shell := toast copied_to_clipboard (shell w);
       clipboard := markdown (shell w);
       saved := saved w |}
  else
    {| shell := toast copy_failed (shell w);
       clipboard := clipboard w;
       saved := saved w |}.

(** [downloadMarkdown] *)
Definition downloadMarkdown (w : World) : World :=
  let file :=
    {| download := lit "document.md";
       blob := {| content := markdown (shell w); type := lit "text/markdown" |} |} in
  {| shell := toast download_started (shell w);
     clipboard := clipboard w;
     saved := file :: saved w |}.

(** The events of the shell. *)
Inductive event : Type :=
| Change (value : jsstring)
| Paste (pastedText : jsstring)
| Copy (granted : bool)
| Download
| Clear.

Definition on_shell (f : Shell -> Shell) (w : World) : World :=
  {| shell := f (shell w); clipboard := clipboard w; saved := saved w |}.

Definition handle (e : event) (w : World) : World :=
  match e with
  | Change value => on_shell (handleMarkdownChange value) w
  | Paste pastedText => on_shell (handlePaste pastedText) w
  | Copy granted => copyToClipboard granted w
  | Download => downloadMarkdown w
  | Clear => on_shell clearContent w
  end.

Definition run (events : list event) (w : World) : World :=
  fold_left (fun w e => handle e w) events w.

(** The text given to the renderer: [markdown || "*No content to preview*"]. *)
Definition previewSource (markdown : jsstring) : jsstring :=
  match markdown with
  | [] => lit "*No content to preview*"
  | _ :: _ => markdown
  end.

(** ** The code component *)

(** [s.replace(/r/, t)] for a pattern without the global flag: the first
    match only. *)
Definition replaceFirst (r : regex) (t : template) (s : jsstring)
    : option jsstring :=
  match exec r (budget s) [] s with
  | Found x y =>
      Some (substring s 0 (endIndex x)
              ++ getSubstitution t (substring s (endIndex x) (endIndex y))
              ++ substring s (endIndex y) (length s))
  | NotFound => Some s
  | ExecExhausted => None
  end.

(** The pattern of line 237: a line feed at the end of the input. *)
Definition final_newline : regex := Seq (Chr newline) EndOfInput.

(** The pattern of line 233: the text language- and a group of one or more
    word characters. *)
Definition language_prefix : jsstring := lit "language-".
Definition language_pattern : regex :=
  seqs [Lit language_prefix; Group (Plus (Cls isWordChar))].

(** [/language-(\w+)/.exec(className || "")], and [match[1]] when there is a
    match: the group is all that the pattern consumes after the text
    language- .  The outer [None] is a budget used up. *)
Definition matchLanguage (className : option jsstring)
    : option (option jsstring) :=
  let subject := match className with Some c => c | None => [] end in
  match exec language_pattern (budget subject) [] subject with
  | Found x y =>
      Some (Some (substring subject (endIndex x + length language_prefix)
                    (endIndex y)))
  | NotFound => Some None
  | ExecExhausted => None
  end.

(** What the component returns: the block with its header and the
    highlighted code set as inner HTML, or the inline code element. *)
Inductive element : Type :=
| CodeBlock (language codeString highlightedCode : jsstring)
| InlineCode (children : jsstring).

Definition forEach_is_not_a_function : Error :=
  lit "langKeywords.forEach is not a function".

(** The [code] entry of [customComponents]; [children] is [String(children)].
    [None] is a budget used up. *)
Definition code (inline : bool) (className : option jsstring)
    (children : jsstring) : option (attempt element) :=
  match matchLanguage className with
  | None => None
  | Some found =>
      match inline, found with
      | false, Some language =>
          match replaceFirst final_newline [] children with
          | None => None
          | Some codeString =>
              match highlightCode codeString language with
              | Returns highlightedCode =>
                  Some (Produced (CodeBlock language codeString highlightedCode))
              | ThrowsTypeError => Some (Threw forEach_is_not_a_function)
              | OutOfBudget => None
              end
          end
      | _, _ => Some (Produced (InlineCode children))
      end
  end.

(** Renders of the boundary one after the other, each with what its children
    come to: the state and the console at the end, and what each render
    displayed. *)
Fixpoint renderEach {A : Type} (st : BoundaryState) (console : list Error)
    (attempts : list (attempt A))
    : BoundaryState * list Error * list (display A) :=
  match attempts with
  | [] => (st, console, [])
  | children :: rest =>
      let '(st', console', shown) := renderBoundary st console children in
      let '(st'', console'', shown') := renderEach st' console' rest in
      (st'', console'', shown :: shown')
  end.

(** ** More notions for the properties *)

(** A code unit that no pass of the classifier looks for: not one of the
    five escaped characters, not a backtick, a slash or a hash, not a digit. *)
Definition plain (c : ascii) : bool :=
  negb (existsb (Ascii.eqb c) [amp; lt; gt; dquote; apos; backtick; "/"; "#"]%char)
  && negb (isDigit c).

(** Where the next code unit, if any, is plain. *)
Definition at_plain (a : jsstring) : Prop :=
  match a with c :: _ => plain c = true | [] => True end.

(** The string without its last code unit when that is a line feed. *)
Definition without_final_newline (s : jsstring) : jsstring :=
  match rev s with
  | c :: r => if Ascii.eqb c newline then rev r else s
  | [] => []
  end.

(** A file as [downloadMarkdown] names and types it, within the limit. *)
Definition markdown_file (f : SavedFile) : Prop :=
  download f = lit "document.md"
  /\ type (blob f) = lit "text/markdown"
  /\ length (content (blob f)) <= character_limit.

(** ** The matcher, step by step *)

(** A property of one code unit, checked on each of the 256. *)
Ltac each_code_unit c := destruct c as [[] [] [] [] [] [] [] []].

Lemma repeatMatcher_step (m : Matcher) (fuel min : nat) (max : option nat)
    (greedy : bool) (x : Pos) (c : Pos -> MatchResult) :
  repeatMatcher m (S fuel) min max greedy x c
  = match max with
    | Some 0 => c x
    | _ =>
        let d := fun y : Pos =>
          if (min =? 0) && (endIndex y =? endIndex x) then Failure
          else repeatMatcher m fuel (pred min) (option_map pred max) greedy y c in
        if negb (min =? 0) then m x d
        else if greedy then
          match m x d with Failure => c x | z => z end
        else
          match c x with Failure => m x d | z => z end
    end.
Proof. reflexivity. Qed.

Lemma succ_eqb (n : nat) : (S n =? n) = false.
Proof. apply Nat.eqb_neq. lia. Qed.

(** ** The escape and the lookup *)

(** The keywords hold no syntax character but [$] and [.]. *)
Lemma keyword_characters :
  forallb (fun entry =>
    forallb (fun keyword =>
      forallb (fun c =>
        negb (isSyntaxCharacter c) || Ascii.eqb c "$" || Ascii.eqb c ".")
        keyword) (snd entry)) keywords
  = true.
Proof. reflexivity. Qed.

Lemma lower_unit_idempotent (c : ascii) : lower_unit (lower_unit c) = lower_unit c.
Proof. each_code_unit c; reflexivity. Qed.

Lemma toLowerCase_idempotent (s : jsstring) :
  toLowerCase (toLowerCase s) = toLowerCase s.
Proof.
  unfold toLowerCase. rewrite map_map.
  apply map_ext. exact lower_unit_idempotent.
Qed.

(** A tag that the lookup does not find, on the object or on its prototype,
    gets the three passes and no keyword pass. *)
Lemma highlightCode_undefined (code language : jsstring) :
  get (toLowerCase language) = Undefined ->
  highlightCode code language = without_keywords code.
Proof.
  intros Hget. unfold highlightCode, without_keywords. rewrite Hget. simpl.
  destruct (escapeHtml code) as [escaped|]; [|reflexivity].
  destruct (classify escaped); reflexivity.
Qed.

(** ** The statistics *)

Lemma leading_trimStart (s : jsstring) : leading s ++ trimStart s = s.
Proof.
  induction s as [|c s IH]; simpl; [reflexivity|].
  destruct (isWhiteSpace c); simpl; [now rewrite IH | reflexivity].
Qed.

Lemma leading_whitespace (s : jsstring) :
  Forall (fun c => isWhiteSpace c = true) (leading s).
Proof.
  induction s as [|c s IH]; simpl; [constructor|].
  destruct (isWhiteSpace c) eqn:E; constructor; assumption.
Qed.

Lemma trimStart_head (s : jsstring) (c : ascii) (t : jsstring) :
  trimStart s = c :: t -> isWhiteSpace c = false.
Proof.
  induction s as [|d s IH]; simpl; [discriminate|].
  destruct (isWhiteSpace d) eqn:E; [exact IH|].
  intros H. injection H as <- _. exact E.
Qed.

Lemma trimStart_length (s : jsstring) : length (trimStart s) <= length s.
Proof.
  induction s as [|c s IH]; simpl; [lia|].
  destruct (isWhiteSpace c); simpl; lia.
Qed.

Lemma ends_ws_last (prev : bool) (s : jsstring) (c : ascii) :
  ends_ws prev (s ++ [c]) = isWhiteSpace c.
Proof.
  revert prev. induction s as [|d s IH]; intros prev; simpl; [reflexivity|].
  apply IH.
Qed.

(** The trimmed string neither starts nor ends with white space. *)
Lemma trim_ends (s : jsstring) (c : ascii) (t : jsstring) :
  trim s = c :: t -> isWhiteSpace c = false /\ ends_ws false t = false.
Proof.
  unfold trim. intros H.
  destruct (trimStart (rev (trimStart s))) as [|x v] eqn:Ev; [discriminate|].
  pose proof (trimStart_head _ _ _ Ev) as Hx.
  assert (Hlast : ends_ws false (c :: t) = false).
  { rewrite <- H. simpl. rewrite ends_ws_last. exact Hx. }
  assert (Hc : isWhiteSpace c = false).
  { pose proof (leading_trimStart (rev (trimStart s))) as Hsplit.
    rewrite Ev in Hsplit.
    apply (f_equal (@rev ascii)) in Hsplit.
    rewrite rev_app_distr, rev_involutive, H in Hsplit.
    simpl in Hsplit. symmetry in Hsplit.
    exact (trimStart_head _ _ _ Hsplit). }
  split; [exact Hc|]. simpl in Hlast. rewrite Hc in Hlast. exact Hlast.
Qed.

(** Runs of other code units and runs of white space alternate. *)
Lemma runs_alternate (s : jsstring) (prevWs : bool) :
  count_runs_from (negb prevWs) s + (if ends_ws prevWs s then 1 else 0)
  = ws_runs_from prevWs s + (if prevWs then 1 else 0).
Proof.
  revert prevWs. induction s as [|c s IH]; intros prevWs; simpl; [reflexivity|].
  destruct (isWhiteSpace c).
  - specialize (IH true). simpl in IH. destruct prevWs; simpl; lia.
  - specialize (IH false). simpl in IH. destruct prevWs; simpl; lia.
Qed.

Lemma ws_runs_trimStart (s : jsstring) (prevWs : bool) :
  ws_runs_from true s = ws_runs_from prevWs (trimStart s).
Proof.
  induction s as [|c s IH]; simpl; [reflexivity|].
  destruct (isWhiteSpace c) eqn:E; simpl; [exact IH|].
  rewrite E. reflexivity.
Qed.

(** The greedy loop of [\s+] goes to the end of the white space. *)
Lemma repeat_whitespace (n : nat) (ws rest b : jsstring) (fuel : nat) :
  Forall (fun c => isWhiteSpace c = true) ws ->
  trimStart rest = rest ->
  length ws < fuel ->
  repeatMatcher (matcher (Cls isWhiteSpace) Forward n) fuel 0 None true
    (mkPos b (ws ++ rest)) (fun y => Matched y)
  = Matched (mkPos (rev ws ++ b) rest).
Proof.
  intros Hws Hrest. revert b fuel.
  induction Hws as [|w ws Hw _ IH]; intros b fuel Hfuel.
  - destruct fuel as [|fuel]; [simpl in Hfuel; lia|].
    rewrite repeatMatcher_step. cbn [matcher advance after before app rev].
    destruct rest as [|c rest]; [reflexivity|].
    simpl in Hrest. destruct (isWhiteSpace c); [|reflexivity].
    exfalso. pose proof (trimStart_length rest) as Hlen.
    rewrite Hrest in Hlen. simpl in Hlen. lia.
  - destruct fuel as [|fuel]; [simpl in Hfuel; lia|].
    simpl in Hfuel.
    rewrite repeatMatcher_step. cbn [matcher advance after before app].
    rewrite Hw. unfold endIndex. cbn [before length].
    rewrite succ_eqb. cbn [Nat.eqb andb negb pred option_map].
    rewrite IH by lia. cbn [rev]. rewrite <- app_assoc. reflexivity.
Qed.

Lemma trimStart_fixed (s : jsstring) : trimStart (trimStart s) = trimStart s.
Proof.
  induction s as [|c s IH]; simpl; [reflexivity|].
  destruct (isWhiteSpace c) eqn:E; [exact IH|]. simpl. rewrite E. reflexivity.
Qed.

(** [\s+] at a white space matches the whole run. *)
Lemma whitespace_run_matches (n : nat) (b : jsstring) (c : ascii) (a : jsstring) :
  isWhiteSpace c = true ->
  length a < n ->
  matcher whitespace_run Forward n (mkPos b (c :: a)) (fun y => Matched y)
  = Matched (mkPos (rev (leading a) ++ c :: b) (trimStart a)).
Proof.
  intros Hc Hn. unfold whitespace_run, Plus.
  change (matcher (Repeat 1 None true (Cls isWhiteSpace)) Forward n
            (mkPos b (c :: a)) (fun y => Matched y))
    with (repeatMatcher (matcher (Cls isWhiteSpace) Forward n) (S n) 1 None true
            (mkPos b (c :: a)) (fun y => Matched y)).
  rewrite repeatMatcher_step.
  cbn [Nat.eqb negb matcher advance after before pred option_map andb].
  rewrite Hc. rewrite <- (leading_trimStart a) at 1.
  apply (repeat_whitespace n).
  - apply leading_whitespace.
  - apply trimStart_fixed.
  - pose proof (leading_trimStart a) as H.
    apply (f_equal (@length ascii)) in H. rewrite length_app in H. lia.
Qed.

(** [\s+] fails elsewhere. *)
Lemma whitespace_run_fails (n : nat) (b : jsstring) (c : ascii) (a : jsstring) :
  isWhiteSpace c = false ->
  matcher whitespace_run Forward n (mkPos b (c :: a)) (fun y => Matched y)
  = Failure.
Proof.
  intros Hc. unfold whitespace_run, Plus.
  change (matcher (Repeat 1 None true (Cls isWhiteSpace)) Forward n
            (mkPos b (c :: a)) (fun y => Matched y))
    with (repeatMatcher (matcher (Cls isWhiteSpace) Forward n) (S n) 1 None true
            (mkPos b (c :: a)) (fun y => Matched y)).
  rewrite repeatMatcher_step.
  cbn [Nat.eqb negb matcher advance after before pred option_map andb].
  rewrite Hc. reflexivity.
Qed.

(** The split on [\s+] gives one piece more than there are runs of white
    space from the position on. *)
Lemma split_loop_pieces (s : jsstring) (n bound : nat) :
  forall (a b : jsstring) (p fuel : nat),
    length a <= bound ->
    length a < fuel ->
    length a <= n ->
    p <= length b ->
    length b + length a <= length s ->
    trimStart a = a ->
    exists pieces,
      split_loop fuel whitespace_run n s p (mkPos b a) = Some pieces
      /\ length pieces = S (ws_runs_from false a).
Proof.
  induction bound as [|bound IH]; intros a b p fuel Hbound Hfuel Hn Hp Hs Ha.
  - destruct a; [|simpl in Hbound; lia].
    destruct fuel; [simpl in Hfuel; lia|]. simpl. eauto.
  - destruct a as [|c a].
    { destruct fuel; [simpl in Hfuel; lia|]. simpl. eauto. }
    destruct fuel as [|fuel]; [simpl in Hfuel; lia|].
    simpl in Hbound, Hfuel, Hn, Hs.
    assert (Hc : isWhiteSpace c = false) by exact (trimStart_head _ _ _ Ha).
    cbn [split_loop after before].
    rewrite whitespace_run_fails by exact Hc.
    simpl. rewrite Hc.
    (* the next position may be at white space: one more step *)
    destruct a as [|w a].
    { destruct fuel; [lia|]. simpl. eauto. }
    destruct (isWhiteSpace w) eqn:Hw.
    + destruct fuel as [|fuel]; [simpl in Hfuel; lia|].
      simpl in Hbound, Hfuel, Hn, Hs.
      cbn [split_loop after before].
      rewrite whitespace_run_matches by (assumption || lia).
      pose proof (leading_trimStart a) as Hsplit.
      apply (f_equal (@length ascii)) in Hsplit. rewrite length_app in Hsplit.
      pose proof (trimStart_length a) as Hlen.
      assert (He : endIndex (mkPos (rev (leading a) ++ w :: c :: b) (trimStart a))
                   = length (leading a) + S (S (length b))).
      { unfold endIndex. simpl. rewrite length_app, length_rev. simpl. lia. }
      rewrite He.
      replace (Nat.min (length (leading a) + S (S (length b))) (length s))
        with (length (leading a) + S (S (length b))) by lia.
      replace (length (leading a) + S (S (length b)) =? p) with false
        by (symmetry; apply Nat.eqb_neq; lia).
      destruct (IH (trimStart a) (rev (leading a) ++ w :: c :: b)
                  (length (leading a) + S (S (length b))) fuel)
        as (pieces & Hpieces & Hcount).
      * lia.
      * lia.
      * lia.
      * rewrite length_app, length_rev. simpl. lia.
      * rewrite length_app, length_rev. simpl. lia.
      * apply trimStart_fixed.
      * rewrite Hpieces. simpl. eexists. split; [reflexivity|].
        simpl. rewrite Hcount. rewrite Hw.
        rewrite (ws_runs_trimStart a false). reflexivity.
    + simpl in Hbound, Hfuel, Hn, Hs.
      destruct (IH (w :: a) (c :: b) p fuel) as (pieces & Hpieces & Hcount).
      * simpl. lia.
      * simpl. lia.
      * simpl. lia.
      * simpl. lia.
      * simpl. lia.
      * simpl. rewrite Hw. reflexivity.
      * exists pieces. split; [exact Hpieces|].
        rewrite Hcount. simpl. rewrite Hw. reflexivity.
Qed.

(** The word count of the trimmed, non-empty document. *)
Lemma split_trimmed (s : jsstring) (c : ascii) (t : jsstring) :
  trim s = c :: t ->
  option_map (@length jsstring) (split whitespace_run (trim s))
  = Some (count_runs (trim s)).
Proof.
  intros H. destruct (trim_ends s c t H) as [Hc Hend]. rewrite H.
  unfold split.
  destruct (split_loop_pieces (c :: t) (budget (c :: t)) (length (c :: t))
              (c :: t) [] 0 (2 * length (c :: t) + 2))
    as (pieces & Hpieces & Hcount).
  - lia.
  - lia.
  - unfold budget. lia.
  - simpl. lia.
  - simpl. lia.
  - simpl. rewrite Hc. reflexivity.
  - unfold startOf. rewrite Hpieces. simpl. f_equal.
    rewrite Hcount. unfold count_runs. simpl. rewrite Hc.
    pose proof (runs_alternate t false) as Halt. simpl in Halt.
    rewrite Hend in Halt. lia.
Qed.

(** A split on a code unit gives one piece more than the code unit occurs. *)
Lemma split_unit_pieces (sep : ascii) (s : jsstring) :
  length (split_unit sep s) = occurrences sep s + 1.
Proof.
  unfold occurrences. induction s as [|c s IH]; simpl; [reflexivity|].
  destruct (Ascii.eqb c sep); simpl; [rewrite IH; reflexivity|].
  destruct (split_unit sep s); simpl in *; lia.
Qed.

(** The statistics of any document. *)
Lemma stats_value (s : jsstring) :
  stats s
  = Some {| characters := length s;
            words := count_words s;
            lines := occurrences newline s + 1 |}.
Proof.
  unfold stats, count_words. rewrite split_unit_pieces.
  destruct (trim s) as [|c t] eqn:E; [reflexivity|].
  rewrite <- E, (split_trimmed s c t E), E. reflexivity.
Qed.

(** ** The budgets are never used up *)

Lemma reach_refl (d : direction) (x : Pos) : reach d x x.
Proof. destruct d; exists []; split; reflexivity. Qed.

Lemma reach_trans (d : direction) (x y z : Pos) :
  reach d x y -> reach d y z -> reach d x z.
Proof.
  destruct d; intros (u & Hu1 & Hu2) (v & Hv1 & Hv2); exists (u ++ v).
  - rewrite Hu1, Hv1, Hv2, Hu2, rev_app_distr, !app_assoc. split; reflexivity.
  - rewrite Hu1, Hv1, Hv2, Hu2, rev_app_distr, !app_assoc. split; reflexivity.
Qed.

Lemma reach_advance (d : direction) (p : ascii -> bool) (x y : Pos) :
  advance d p x = Some y -> reach d x y.
Proof.
  destruct x as [b a]. destruct d; simpl.
  - destruct a as [|c a]; [discriminate|]. destruct (p c); [|discriminate].
    intros H. injection H as <-. exists [c]. split; reflexivity.
  - destruct b as [|c b]; [discriminate|]. destruct (p c); [|discriminate].
    intros H. injection H as <-. exists [c]. split; reflexivity.
Qed.

Lemma reach_total (d : direction) (x y : Pos) :
  reach d x y -> total y = total x /\ room d y <= room d x.
Proof.
  unfold total. destruct d; simpl; intros (u & H1 & H2);
    apply (f_equal (@length ascii)) in H1, H2;
    rewrite length_app in H1, H2; pose proof (length_rev u); lia.
Qed.

Lemma reach_moved (d : direction) (x y : Pos) :
  reach d x y -> endIndex y <> endIndex x -> room d y < room d x.
Proof.
  unfold endIndex. destruct d; simpl; intros (u & H1 & H2);
    apply (f_equal (@length ascii)) in H1, H2;
    rewrite length_app in H1, H2; pose proof (length_rev u); lia.
Qed.

Lemma room_total (d : direction) (x : Pos) : room d x <= total x.
Proof. unfold total. destruct d; simpl; lia. Qed.

Lemma repeatMatcher_reaches (d : direction) (m : Matcher) (greedy : bool)
    (k : Pos -> MatchResult) (z : Pos) :
  reaches d m ->
  forall fuel min max x,
    repeatMatcher m fuel min max greedy x k = Matched z ->
    exists y, reach d x y /\ k y = Matched z.
Proof.
  intros Hm. induction fuel as [|fuel IH]; intros min max x; [discriminate|].
  rewrite repeatMatcher_step.
  assert (Hstop : k x = Matched z -> exists y, reach d x y /\ k y = Matched z).
  { intros H. exists x. split; [apply reach_refl | exact H]. }
  assert (Hiter : forall r,
    m x (fun y => if (min =? 0) && (endIndex y =? endIndex x) then Failure
                  else repeatMatcher m fuel (pred min) (option_map pred r)
                         greedy y k) = Matched z ->
    exists y, reach d x y /\ k y = Matched z).
  { intros r H. apply Hm in H. destruct H as (y & Hxy & Hy).
    destruct ((min =? 0) && (endIndex y =? endIndex x)); [discriminate|].
    apply IH in Hy. destruct Hy as (y' & Hyy' & Hy').
    exists y'. split; [exact (reach_trans d x y y' Hxy Hyy') | exact Hy']. }
  destruct max as [[|max]|]; [exact Hstop| |]; cbv zeta;
    (destruct (negb (min =? 0)); [apply Hiter|]);
    (destruct greedy;
     [ match goal with
       | |- match ?e with _ => _ end = _ -> _ =>
           destruct e eqn:E;
           [intros H; injection H as ->; exact (Hiter _ E) | exact Hstop
           | discriminate]
       end
     | destruct (k x) eqn:E;
       [intros H; injection H as ->; exact (Hstop eq_refl) | apply Hiter
       | discriminate] ]).
Qed.

Lemma matcher_reaches (r : regex) (d : direction) (n : nat) :
  reaches d (matcher r d n).
Proof.
  revert d. induction r as [|c|p|r1 IH1 r2 IH2|r1 IH1 r2 IH2|min max greedy r1 IH1
                           |r1 IH1| | |behind negative r1 IH1];
    intros d x k z; cbn [matcher].
  - intros H. exists x. split; [apply reach_refl | exact H].
  - destruct (advance d (Ascii.eqb c) x) as [y|] eqn:E; [|discriminate].
    intros H. exists y. split; [exact (reach_advance _ _ _ _ E) | exact H].
  - destruct (advance d p x) as [y|] eqn:E; [|discriminate].
    intros H. exists y. split; [exact (reach_advance _ _ _ _ E) | exact H].
  - destruct d; intros H.
    + apply IH1 in H. destruct H as (y & Hxy & H). apply IH2 in H.
      destruct H as (y' & Hyy' & H). exists y'.
      split; [exact (reach_trans _ _ _ _ Hxy Hyy') | exact H].
    + apply IH2 in H. destruct H as (y & Hxy & H). apply IH1 in H.
      destruct H as (y' & Hyy' & H). exists y'.
      split; [exact (reach_trans _ _ _ _ Hxy Hyy') | exact H].
  - destruct (matcher r1 d n x k) eqn:E.
    + intros H. injection H as ->. exact (IH1 _ _ _ _ E).
    + apply IH2.
    + discriminate.
  - apply (repeatMatcher_reaches d). exact (IH1 d).
  - apply IH1.
  - destruct (xorb (wordBefore x) (wordAfter x)); [|discriminate].
    intros H. exists x. split; [apply reach_refl | exact H].
  - destruct (after x); [|discriminate].
    intros H. exists x. split; [apply reach_refl | exact H].
  - destruct (matcher r1 (if behind then Backward else Forward) n x
                (fun y => Matched y));
      destruct negative; try discriminate;
      intros H; exists x; (split; [apply reach_refl | exact H]).
Qed.

Lemma repeatMatcher_budget (d : direction) (n : nat) (m : Matcher)
    (greedy : bool) (x0 : Pos) (k : Pos -> MatchResult) :
  within_budget d n m ->
  (forall y, reach d x0 y -> k y <> Exhausted) ->
  total x0 < n ->
  forall fuel min max x,
    reach d x0 x ->
    min + room d x < fuel ->
    repeatMatcher m fuel min max greedy x k <> Exhausted.
Proof.
  intros Hm Hk Hn. induction fuel as [|fuel IH]; intros min max x Hx Hfuel;
    [lia|].
  rewrite repeatMatcher_step.
  assert (Hstop : k x <> Exhausted) by exact (Hk x Hx).
  assert (Htotal : total x < n)
    by (destruct (reach_total d x0 x Hx) as [-> _]; exact Hn).
  assert (Hiter : forall r,
    m x (fun y => if (min =? 0) && (endIndex y =? endIndex x) then Failure
                  else repeatMatcher m fuel (pred min) (option_map pred r)
                         greedy y k) <> Exhausted).
  { intros r. apply Hm; [|exact Htotal]. intros y Hxy.
    destruct (min =? 0) eqn:Emin; simpl.
    - destruct (endIndex y =? endIndex x) eqn:Eidx; [discriminate|].
      apply Nat.eqb_neq in Eidx. apply Nat.eqb_eq in Emin.
      pose proof (reach_moved d x y Hxy Eidx).
      apply IH; [exact (reach_trans d x0 x y Hx Hxy) | lia].
    - apply Nat.eqb_neq in Emin.
      destruct (reach_total d x y Hxy) as [_ Hroom].
      apply IH; [exact (reach_trans d x0 x y Hx Hxy) | lia]. }
  destruct max as [[|max]|]; [exact Hstop| |]; cbv zeta;
    (destruct (negb (min =? 0)); [apply Hiter|]);
    (destruct greedy;
     [ match goal with
       | |- match ?e with _ => _ end <> _ =>
           pose proof (Hiter (Some (S max))) as H1 || pose proof (Hiter None) as H1;
           destruct e; [discriminate | exact Hstop | exact H1]
       end
     | destruct (k x) eqn:E; [discriminate | apply Hiter | exact Hstop] ]).
Qed.

Lemma matcher_budget (r : regex) (d : direction) (n : nat) :
  within_budget d n (matcher r d n).
Proof.
  revert d. induction r as [|c|p|r1 IH1 r2 IH2|r1 IH1 r2 IH2|min max greedy r1 IH1
                           |r1 IH1| | |behind negative r1 IH1];
    intros d x k Hk Hn; cbn [matcher].
  - apply Hk, reach_refl.
  - destruct (advance d (Ascii.eqb c) x) as [y|] eqn:E; [|discriminate].
    apply Hk. exact (reach_advance _ _ _ _ E).
  - destruct (advance d p x) as [y|] eqn:E; [|discriminate].
    apply Hk. exact (reach_advance _ _ _ _ E).
  - destruct d.
    + apply IH1; [|exact Hn]. intros y Hxy. apply IH2.
      * intros y' Hyy'. apply Hk. exact (reach_trans _ _ _ _ Hxy Hyy').
      * destruct (reach_total _ _ _ Hxy) as [-> _]. exact Hn.
    + apply IH2; [|exact Hn]. intros y Hxy. apply IH1.
      * intros y' Hyy'. apply Hk. exact (reach_trans _ _ _ _ Hxy Hyy').
      * destruct (reach_total _ _ _ Hxy) as [-> _]. exact Hn.
  - pose proof (IH1 d x k Hk Hn) as H1. pose proof (IH2 d x k Hk Hn) as H2.
    destruct (matcher r1 d n x k); [discriminate | exact H2 | exact H1].
  - apply (repeatMatcher_budget d n (matcher r1 d n) greedy x k (IH1 d) Hk Hn).
    + apply reach_refl.
    + pose proof (room_total d x). lia.
  - apply IH1; assumption.
  - destruct (xorb (wordBefore x) (wordAfter x)); [|discriminate].
    apply Hk, reach_refl.
  - destruct (after x); [|discriminate]. apply Hk, reach_refl.
  - pose proof (IH1 (if behind then Backward else Forward) x
                  (fun y => Matched y)) as H1.
    pose proof (Hk x (reach_refl d x)) as H2.
    destruct (matcher r1 (if behind then Backward else Forward) n x
                (fun y => Matched y)).
    + destruct negative; [discriminate | exact H2].
    + destruct negative; [exact H2 | discriminate].
    + exfalso. apply H1; [discriminate | exact Hn | reflexivity].
Qed.

Lemma exec_reach (r : regex) (n : nat) (s e : Pos) :
  forall a b,
    exec r n b a = Found s e ->
    reach Forward (mkPos b a) s /\ reach Forward s e.
Proof.
  induction a as [|c a IH]; intros b; cbn [exec];
    destruct (matcher r Forward n _ _) as [y| |] eqn:E; try discriminate.
  - intros H. injection H as <- <-.
    apply matcher_reaches in E. destruct E as (y' & Hy' & E).
    injection E as <-. split; [apply (reach_refl Forward) | exact Hy'].
  - intros H. injection H as <- <-.
    apply matcher_reaches in E. destruct E as (y' & Hy' & E).
    injection E as <-. split; [apply (reach_refl Forward) | exact Hy'].
  - intros H. apply IH in H. destruct H as [H1 H2]. split; [|exact H2].
    apply (reach_trans Forward _ (mkPos (c :: b) a)); [|exact H1].
    exists [c]. split; reflexivity.
Qed.

Lemma exec_budget (r : regex) (n : nat) :
  forall a b, total (mkPos b a) < n -> exec r n b a <> ExecExhausted.
Proof.
  induction a as [|c a IH]; intros b Hn; cbn [exec];
    pose proof (matcher_budget r Forward n _ (fun y => Matched y)
                  (fun y _ => @eq_ind _ (Matched y)
                     (fun z => match z with Exhausted => False | _ => True end)
                     I Exhausted) Hn) as H;
    destruct (matcher r Forward n _ _); try discriminate; try (exfalso; exact (H eq_refl)).
  apply IH. unfold total in *. simpl in *. lia.
Qed.

(** The first loop of the replace ends. *)
Lemma collect_total (r : regex) (n : nat) :
  forall fuel x,
    total x < n ->
    room Forward x < fuel ->
    exists results, collect fuel r n x = Some results.
Proof.
  induction fuel as [|fuel IH]; intros x Hn Hfuel; [lia|].
  cbn [collect].
  assert (Hx : mkPos (before x) (after x) = x) by (destruct x; reflexivity).
  pose proof (exec_budget r n (after x) (before x)) as Hb.
  rewrite Hx in Hb. specialize (Hb Hn).
  destruct (exec r n (before x) (after x)) as [s e| |] eqn:E;
    [|eauto|contradiction].
  apply exec_reach in E. rewrite Hx in E. destruct E as [Hs He].
  destruct (reach_total _ _ _ Hs) as [Hts Hrs].
  destruct (reach_total _ _ _ He) as [Hte Hre].
  destruct (endIndex e =? endIndex s) eqn:Eidx.
  - destruct (advance Forward (fun _ => true) e) as [x'|] eqn:Ea; [|eauto].
    pose proof (reach_advance _ _ _ _ Ea) as Hx'.
    destruct (reach_total _ _ _ Hx') as [Htx' _].
    assert (Hmoved : room Forward x' < room Forward e).
    { apply reach_moved; [exact Hx'|].
      destruct e as [be ae]. simpl in Ea. destruct ae; [discriminate|].
      injection Ea as <-. unfold endIndex. simpl. lia. }
    destruct (IH x') as [results ->]; [lia | lia |]. simpl. eauto.
  - apply Nat.eqb_neq in Eidx. pose proof (reach_moved _ _ _ He Eidx).
    destruct (IH e) as [results ->]; [lia | lia |]. simpl. eauto.
Qed.

(** A global replace returns. *)
Lemma replaceAll_total (r : regex) (t : template) (s : jsstring) :
  exists result, replaceAll r t s = Some result.
Proof.
  unfold replaceAll.
  destruct (collect_total r (budget s) (length s + 2) (startOf s))
    as [results ->]; [unfold total, budget; simpl; lia | simpl; lia |].
  eauto.
Qed.

Lemma escapeHtml_total (code : jsstring) :
  exists escaped, escapeHtml code = Some escaped.
Proof.
  unfold escapeHtml.
  destruct (replaceAll_total (Chr amp) [TText (lit "&amp;")] code) as [s1 ->].
  destruct (replaceAll_total (Chr lt) [TText (lit "&lt;")] s1) as [s2 ->].
  destruct (replaceAll_total (Chr gt) [TText (lit "&gt;")] s2) as [s3 ->].
  destruct (replaceAll_total (Chr dquote) [TText (lit "&quot;")] s3) as [s4 ->].
  apply replaceAll_total.
Qed.

Lemma classify_total (escaped : jsstring) :
  exists highlighted, classify escaped = Some highlighted.
Proof.
  unfold classify.
  destruct (replaceAll_total string_pattern (wrap_in (lit "string")) escaped)
    as [s1 ->].
  destruct (replaceAll_total comment_pattern (wrap_in (lit "comment")) s1)
    as [s2 ->].
  apply replaceAll_total.
Qed.

Lemma forEach_keyword_total (words : list jsstring) :
  forall highlighted, exists result, forEach_keyword words highlighted = Some result.
Proof.
  induction words as [|keyword words IH]; intros highlighted;
    cbn [forEach_keyword]; [eauto|].
  destruct (replaceAll_total (keyword_pattern keyword) (wrap_in (lit "keyword"))
              highlighted) as [h ->].
  apply IH.
Qed.

(** The three passes without a keyword pass return. *)
Lemma without_keywords_returns (code : jsstring) :
  exists html, without_keywords code = Returns html.
Proof.
  unfold without_keywords.
  destruct (escapeHtml_total code) as [escaped ->].
  destruct (classify_total escaped) as [highlighted ->]. eauto.
Qed.

(** The classifier throws when the lookup finds an inherited property, and
    returns a string otherwise; it never runs out of budget. *)
Lemma highlightCode_outcome (code language : jsstring) :
  match get (toLowerCase language) with
  | Inherited => highlightCode code language = ThrowsTypeError
  | _ => exists html, highlightCode code language = Returns html
  end.
Proof.
  unfold highlightCode.
  destruct (escapeHtml_total code) as [escaped ->].
  destruct (classify_total escaped) as [highlighted ->].
  destruct (get (toLowerCase language)) as [|words|]; simpl.
  - eauto.
  - destruct (forEach_keyword_total words highlighted) as [result ->]. eauto.
  - reflexivity.
Qed.

Lemma jsstring_eqb_eq (s t : jsstring) : jsstring_eqb s t = true <-> s = t.
Proof.
  revert t. induction s as [|c s IH]; intros [|d t]; simpl;
    try (split; (discriminate || reflexivity)).
  rewrite andb_true_iff, Ascii.eqb_eq, IH.
  split; [intros [-> ->]; reflexivity | intros H; injection H; auto].
Qed.

(** The lookup finds an inherited property for two lower-case tags. *)
Lemma get_inherited (language : jsstring) :
  get (toLowerCase language) = Inherited
  <-> toLowerCase language = lit "constructor"
      \/ toLowerCase language = lit "__proto__".
Proof.
  split.
  - unfold get.
    destruct (own_property (toLowerCase language) keywords); [discriminate|].
    destruct (existsb _ _) eqn:E; [intros _|discriminate].
    apply existsb_exists in E. destruct E as (name & Hin & Heq).
    apply jsstring_eqb_eq in Heq.
    assert (Hfix : toLowerCase name = name)
      by (rewrite <- Heq; apply toLowerCase_idempotent).
    simpl in Hin.
    repeat (destruct Hin as [<-|Hin];
            [first [ left; exact Heq | right; exact Heq
                   | vm_compute in Hfix; discriminate Hfix ]|]).
    destruct Hin.
  - intros [-> | ->]; reflexivity.
Qed.

(** ** The escape *)

Section OneCodeUnit.

(** The pattern is the code unit [c], the replacement the text [text]. *)
Variables (c : ascii) (text : jsstring).

Lemma exec_unit_miss (n : nat) (d : ascii) (b a : jsstring) :
  Ascii.eqb c d = false ->
  exec (Chr c) n b (d :: a) = exec (Chr c) n (d :: b) a.
Proof. intros H. simpl. rewrite H. reflexivity. Qed.

Lemma exec_unit_hit (n : nat) (b a : jsstring) :
  exec (Chr c) n b (c :: a) = Found (mkPos b (c :: a)) (mkPos (c :: b) a).
Proof. simpl. rewrite Ascii.eqb_refl. reflexivity. Qed.

Lemma collect_unit (n : nat) :
  forall a b fuel,
    length a < fuel ->
    collect fuel (Chr c) n (mkPos b a) = Some (hits c (length b) a).
Proof.
  induction a as [|d a IH]; intros b fuel Hfuel;
    (destruct fuel as [|fuel]; [simpl in Hfuel; lia|]).
  - reflexivity.
  - simpl in Hfuel. cbn [collect before after hits].
    destruct (Ascii.eqb c d) eqn:E.
    + apply Ascii.eqb_eq in E. subst d. rewrite exec_unit_hit.
      unfold endIndex. cbn [before length]. rewrite succ_eqb.
      rewrite IH by lia. reflexivity.
    + rewrite (exec_unit_miss n d b a E).
      specialize (IH (d :: b) (S fuel)).
      cbn [collect before after length] in IH. rewrite IH by lia. reflexivity.
Qed.

Lemma substring_middle (pre mid rest : jsstring) :
  substring (pre ++ mid ++ rest) (length pre) (length pre + length mid) = mid.
Proof.
  unfold substring. rewrite skipn_app, skipn_all, Nat.sub_diag. simpl.
  replace (length pre + length mid - length pre) with (length mid) by lia.
  rewrite firstn_app, firstn_all, Nat.sub_diag. simpl. apply app_nil_r.
Qed.

Lemma accumulate_unit :
  forall a pre mid,
    Forall (fun d => Ascii.eqb c d = false) mid ->
    accumulate (pre ++ mid ++ a) [TText text]
      (hits c (length pre + length mid) a) (length pre)
    = mid ++ flat_map (replace_unit c text) a.
Proof.
  induction a as [|d a IH]; intros pre mid Hmid.
  - cbn [hits accumulate flat_map]. rewrite !app_nil_r.
    pose proof (substring_middle pre mid []) as H.
    rewrite app_nil_r in H. rewrite length_app. exact H.
  - cbn [hits flat_map]. unfold replace_unit at 1.
    destruct (Ascii.eqb c d) eqn:E.
    + cbn [accumulate].
      replace (length pre <=? length pre + length mid) with true
        by (symmetry; apply Nat.leb_le; lia).
      rewrite substring_middle.
      specialize (IH (pre ++ mid ++ [d]) [] (Forall_nil _)).
      rewrite !length_app in IH. cbn [length app] in IH.
      replace (length pre + (length mid + 1) + 0)
        with (S (length pre + length mid)) in IH by lia.
      replace (length pre + (length mid + 1))
        with (S (length pre + length mid)) in IH by lia.
      replace ((pre ++ mid ++ [d]) ++ a) with (pre ++ mid ++ d :: a) in IH
        by (rewrite <- !app_assoc; reflexivity).
      rewrite IH.
      cbn [getSubstitution flat_map]. rewrite app_nil_r. reflexivity.
    + specialize (IH pre (mid ++ [d])).
      rewrite length_app in IH. cbn [length] in IH.
      replace (length pre + (length mid + 1))
        with (S (length pre + length mid)) in IH by lia.
      replace (pre ++ (mid ++ [d]) ++ a) with (pre ++ mid ++ d :: a) in IH
        by (rewrite <- !app_assoc; reflexivity).
      rewrite IH.
      * rewrite <- app_assoc. reflexivity.
      * apply Forall_app. split; [exact Hmid|]. constructor; [exact E|constructor].
Qed.

(** A global replace of one code unit by a text with no [$]. *)
Lemma replaceAll_unit (s : jsstring) :
  replaceAll (Chr c) [TText text] s = Some (flat_map (replace_unit c text) s).
Proof.
  unfold replaceAll, startOf. rewrite collect_unit by lia. f_equal.
  exact (accumulate_unit s [] [] (Forall_nil _)).
Qed.

End OneCodeUnit.

Lemma entity_steps (c : ascii) :
  flat_map (replace_unit apos (lit "&#39;"))
    (flat_map (replace_unit dquote (lit "&quot;"))
       (flat_map (replace_unit gt (lit "&gt;"))
          (flat_map (replace_unit lt (lit "&lt;"))
             (replace_unit amp (lit "&amp;") c))))
  = entity c.
Proof. each_code_unit c; reflexivity. Qed.

(** The escape replaces each code unit by its entity, once. *)
Lemma escapeHtml_entities (code : jsstring) :
  escapeHtml code = Some (flat_map entity code).
Proof.
  unfold escapeHtml. rewrite !replaceAll_unit. f_equal.
  induction code as [|c code IH]; [reflexivity|].
  cbn [flat_map]. rewrite !flat_map_app, IH, entity_steps. reflexivity.
Qed.

(** No angle bracket, double quote or apostrophe is left by the escape. *)
Lemma escapeHtml_no_markup (code escaped : jsstring) :
  escapeHtml code = Some escaped ->
  Forall (fun c => c <> lt /\ c <> gt /\ c <> dquote /\ c <> apos) escaped.
Proof.
  rewrite escapeHtml_entities. intros H. injection H as <-.
  induction code as [|c code IH]; [constructor|].
  cbn [flat_map]. apply Forall_app. split; [|exact IH].
  clear. each_code_unit c; vm_compute; repeat constructor; discriminate.
Qed.

(** ** The string pass after the escape *)

Lemma delimited_fails (q : ascii) (n : nat) (x : Pos) (k : Pos -> MatchResult) :
  match after x with c :: _ => c <> q | [] => True end ->
  matcher (delimited q) Forward n x k = Failure.
Proof.
  intros H. unfold delimited. cbn [seqs matcher advance].
  destruct (after x) as [|c a]; [reflexivity|].
  destruct (Ascii.eqb q c) eqn:E; [|reflexivity].
  apply Ascii.eqb_eq in E. congruence.
Qed.

Lemma string_pattern_backtick (n : nat) (x : Pos) (k : Pos -> MatchResult) :
  Forall no_quote (after x) ->
  matcher string_pattern Forward n x k = matcher backtick_pattern Forward n x k.
Proof.
  intros H. unfold string_pattern, backtick_pattern.
  cbn [matcher].
  rewrite (delimited_fails dquote), (delimited_fails apos).
  - destruct (matcher (delimited backtick) Forward n x k); reflexivity.
  - destruct H as [|c a [_ Hc] _]; [exact I | exact Hc].
  - destruct H as [|c a [Hc _] _]; [exact I | exact Hc].
Qed.

Lemma exec_backtick (n : nat) :
  forall a b,
    Forall no_quote a ->
    exec string_pattern n b a = exec backtick_pattern n b a.
Proof.
  induction a as [|c a IH]; intros b H; cbn [exec];
    rewrite string_pattern_backtick by exact H;
    destruct (matcher backtick_pattern Forward n _ _); try reflexivity.
  apply IH. inversion H; assumption.
Qed.

Lemma reach_after (x y : Pos) (P : ascii -> Prop) :
  reach Forward x y -> Forall P (after x) -> Forall P (after y).
Proof.
  intros (u & H & _) HP. rewrite H in HP. apply Forall_app in HP. apply HP.
Qed.

Lemma collect_backtick (n : nat) :
  forall fuel x,
    Forall no_quote (after x) ->
    collect fuel string_pattern n x = collect fuel backtick_pattern n x.
Proof.
  induction fuel as [|fuel IH]; intros x H; [reflexivity|].
  cbn [collect]. rewrite exec_backtick by exact H.
  destruct (exec backtick_pattern n (before x) (after x)) as [s e| |] eqn:E;
    try reflexivity.
  apply exec_reach in E. destruct E as [Hs He].
  assert (Hx : mkPos (before x) (after x) = x) by (destruct x; reflexivity).
  rewrite Hx in Hs.
  assert (Hafter : Forall no_quote (after e))
    by exact (reach_after s e _ He (reach_after x s _ Hs H)).
  destruct (endIndex e =? endIndex s).
  - destruct (advance Forward (fun _ => true) e) as [x'|] eqn:Ea; [|reflexivity].
    rewrite IH; [reflexivity|].
    exact (reach_after e x' _ (reach_advance _ _ _ _ Ea) Hafter).
  - rewrite IH by exact Hafter. reflexivity.
Qed.

(** After the escape the string pass wraps the backtick spans and nothing
    else: the alternatives for the double quote and the apostrophe never
    match, the escape having left neither. *)
Lemma string_pass_backticks_only (code escaped : jsstring) (t : template) :
  escapeHtml code = Some escaped ->
  replaceAll string_pattern t escaped = replaceAll backtick_pattern t escaped.
Proof.
  intros H. unfold replaceAll. rewrite collect_backtick; [reflexivity|].
  apply escapeHtml_no_markup in H. unfold startOf. cbn [after].
  eapply Forall_impl; [|exact H]. intros c (_ & _ & Hd & Ha). split; assumption.
Qed.

(** ** The output is the escaped code with tags inserted *)

Lemma Woven_trans (a b c : jsstring) : Woven a b -> Woven b c -> Woven a c.
Proof.
  intros Hab Hbc. induction Hbc as [|u v t _ IH Ht]; [exact Hab|].
  apply woven_insert; assumption.
Qed.

Lemma Woven_app_l (a b c : jsstring) : Woven a b -> Woven (a ++ c) (b ++ c).
Proof.
  intros H. induction H as [|u v t _ IH Ht]; [constructor|].
  rewrite <- !app_assoc. apply woven_insert; [|exact Ht].
  rewrite app_assoc. exact IH.
Qed.

Lemma Woven_app_r (a c d : jsstring) : Woven c d -> Woven (a ++ c) (a ++ d).
Proof.
  intros H. induction H as [|u v t _ IH Ht]; [constructor|].
  rewrite app_assoc. apply woven_insert; [|exact Ht].
  rewrite <- app_assoc. exact IH.
Qed.

Lemma Woven_app (a b c d : jsstring) :
  Woven a b -> Woven c d -> Woven (a ++ c) (b ++ d).
Proof.
  intros Hab Hcd. apply (Woven_trans _ (b ++ c)).
  - apply Woven_app_l. exact Hab.
  - apply Woven_app_r. exact Hcd.
Qed.

Lemma span_open_tag (name : jsstring) :
  In name class_names -> In (span_open name) span_tags.
Proof.
  unfold class_names, span_tags. simpl.
  intros [<- | [<- | [<- | [<- | []]]]]; auto 6.
Qed.

Lemma Woven_wrap (name matched : jsstring) :
  In name class_names ->
  Woven matched (getSubstitution (wrap_in name) matched).
Proof.
  intros Hname. unfold wrap_in. cbn [getSubstitution flat_map].
  rewrite app_nil_r.
  apply (woven_insert matched [] (matched ++ span_close) (span_open name));
    [|exact (span_open_tag name Hname)].
  rewrite <- (app_nil_r span_close).
  apply (woven_insert matched matched [] span_close).
  - rewrite app_nil_r. constructor.
  - unfold span_tags. simpl. auto 6.
Qed.

Lemma skipn_three (s : jsstring) (k i e : nat) :
  k <= i -> i <= e ->
  skipn k s = substring s k i ++ substring s i e ++ skipn e s.
Proof.
  intros Hki Hie. unfold substring.
  replace (skipn i s) with (skipn (i - k) (skipn k s))
    by (rewrite skipn_skipn; f_equal; lia).
  replace (skipn e s) with (skipn (e - i) (skipn (i - k) (skipn k s)))
    by (rewrite !skipn_skipn; f_equal; lia).
  rewrite !firstn_skipn. reflexivity.
Qed.

Lemma accumulate_woven (s : jsstring) (name : jsstring) :
  In name class_names ->
  forall results k,
    ordered k results ->
    Woven (skipn k s) (accumulate s (wrap_in name) results k).
Proof.
  intros Hname. induction results as [|[i e] rest IH]; intros k Hord.
  - cbn [accumulate]. unfold substring. rewrite firstn_all2; [constructor|].
    rewrite length_skipn. lia.
  - destruct Hord as (Hki & Hie & Hrest). cbn [accumulate].
    replace (k <=? i) with true by (symmetry; apply Nat.leb_le; exact Hki).
    rewrite (skipn_three s k i e Hki Hie).
    apply Woven_app_r. apply Woven_app; [exact (Woven_wrap _ _ Hname)|].
    exact (IH e Hrest).
Qed.

Lemma reach_index (x y : Pos) : reach Forward x y -> endIndex x <= endIndex y.
Proof.
  intros (u & _ & H). unfold endIndex. rewrite H, length_app. lia.
Qed.

Lemma ordered_from (k k' : nat) (results : list (nat * nat)) :
  k' <= k -> ordered k results -> ordered k' results.
Proof.
  destruct results as [|[i e] rest]; [trivial|].
  intros Hk (Hki & Hie & Hrest). repeat split; [lia | exact Hie | exact Hrest].
Qed.

Lemma collect_ordered (r : regex) (n : nat) :
  forall fuel x results,
    collect fuel r n x = Some results -> ordered (endIndex x) results.
Proof.
  induction fuel as [|fuel IH]; intros x results; [discriminate|].
  cbn [collect].
  assert (Hx : mkPos (before x) (after x) = x) by (destruct x; reflexivity).
  destruct (exec r n (before x) (after x)) as [s e| |] eqn:E;
    [| intros H; injection H as <-; exact I | discriminate].
  apply exec_reach in E. rewrite Hx in E. destruct E as [Hs He].
  apply reach_index in Hs, He.
  destruct (endIndex e =? endIndex s).
  - destruct (advance Forward (fun _ => true) e) as [x'|] eqn:Ea.
    + destruct (collect fuel r n x') as [rest|] eqn:Erest; [|discriminate].
      intros H. injection H as <-. repeat split; [exact Hs | exact He |].
      apply (ordered_from (endIndex x')); [|exact (IH x' rest Erest)].
      apply reach_index. exact (reach_advance _ _ _ _ Ea).
    + intros H. injection H as <-. repeat split; assumption.
  - destruct (collect fuel r n e) as [rest|] eqn:Erest; [|discriminate].
    intros H. injection H as <-. repeat split; [exact Hs | exact He |].
    exact (IH e rest Erest).
Qed.

(** A pass inserts its tags and changes nothing else. *)
Lemma replaceAll_woven (r : regex) (name s out : jsstring) :
  In name class_names ->
  replaceAll r (wrap_in name) s = Some out ->
  Woven s out.
Proof.
  intros Hname. unfold replaceAll.
  destruct (collect (length s + 2) r (budget s) (startOf s)) as [results|] eqn:E;
    [|discriminate].
  intros H. injection H as <-.
  apply collect_ordered in E.
  exact (accumulate_woven s name Hname results 0 E).
Qed.

Lemma classify_woven (escaped out : jsstring) :
  classify escaped = Some out -> Woven escaped out.
Proof.
  unfold classify.
  destruct (replaceAll string_pattern _ escaped) as [s1|] eqn:E1; [|discriminate].
  destruct (replaceAll comment_pattern _ s1) as [s2|] eqn:E2; [|discriminate].
  intros E3.
  apply replaceAll_woven in E1, E2, E3; try (unfold class_names; simpl; auto 6).
  exact (Woven_trans _ _ _ (Woven_trans _ _ _ E1 E2) E3).
Qed.

Lemma forEach_keyword_woven (words : list jsstring) :
  forall highlighted out,
    forEach_keyword words highlighted = Some out -> Woven highlighted out.
Proof.
  induction words as [|keyword words IH]; intros highlighted out;
    cbn [forEach_keyword].
  - intros H. injection H as <-. constructor.
  - destruct (replaceAll (keyword_pattern keyword) _ highlighted) as [h|] eqn:E;
      [|discriminate].
    intros H. apply IH in H.
    apply replaceAll_woven in E; [|unfold class_names; simpl; auto 6].
    exact (Woven_trans _ _ _ E H).
Qed.

(** What the classifier returns is the code, each code unit replaced by its
    entity, with span tags of the classifier inserted: every angle bracket
    of the result was inserted with a tag, none comes from the code. *)
Lemma highlightCode_woven (code language html : jsstring) :
  highlightCode code language = Returns html ->
  Woven (flat_map entity code) html.
Proof.
  unfold highlightCode. rewrite escapeHtml_entities.
  destruct (classify (flat_map entity code)) as [highlighted|] eqn:E;
    [|discriminate].
  apply classify_woven in E.
  destruct (or_empty (get (toLowerCase language))) as [|words|]; try discriminate.
  destruct (forEach_keyword words highlighted) as [result|] eqn:Ek;
    [|discriminate].
  intros H. injection H as <-.
  apply forEach_keyword_woven in Ek.
  exact (Woven_trans _ _ _ E Ek).
Qed.

(** ** The classifier on given inputs *)

(** C1.  On the code ["hi" + 42] with the tag javascript the classifier
    returns the escaped text with [42] in one number span; the double-quoted
    span is not in a string span, since the escape has replaced both double
    quotes before the string pass runs, and no string span is in the result. *)
Theorem highlightCode_hi_plus_42 :
  let code := [dquote] ++ lit "hi" ++ [dquote] ++ lit " + 42" in
  let result :=
    lit "&quot;hi&quot; + " ++ span_open (lit "number") ++ lit "42" ++ span_close in
  highlightCode code (lit "javascript") = Returns result
  /\ occurs (span_open (lit "string")) result = false
  /\ occurrences lt result = 2.
Proof. vm_compute. repeat split. Qed.

(** C2.  On the code made of [<b>&], a double quote and an apostrophe, with
    the tag text, the escape replaces each of the five characters by its
    entity once, and the classifier returns the escaped text with the [#39;]
    of the last entity in a comment span: the hash of the entity of the
    apostrophe is taken for the start of a hash comment. *)
Theorem highlightCode_five_characters :
  let code := lit "<b>&" ++ [dquote] ++ lit "'" in
  let result :=
    lit "&lt;b&gt;&amp;&quot;&" ++ span_open (lit "comment") ++ lit "#39;"
      ++ span_close in
  escapeHtml code = Some (lit "&lt;b&gt;&amp;&quot;&#39;")
  /\ highlightCode code (lit "text") = Returns result
  /\ occurs (span_open (lit "comment")) result = true.
Proof. vm_compute. repeat split. Qed.

(** C5.  On the code [def f(n):], a line feed, [    return n  # base] with the
    tag python the classifier returns the code with [def] and [return] each in
    a keyword span and [# base] in a comment span, and nothing else changed. *)
Theorem highlightCode_python_example :
  highlightCode (lit "def f(n):" ++ [newline] ++ lit "    return n  # base")
    (lit "python")
  = Returns (span_open (lit "keyword") ++ lit "def" ++ span_close
             ++ lit " f(n):" ++ [newline] ++ lit "    "
             ++ span_open (lit "keyword") ++ lit "return" ++ span_close
             ++ lit " n  "
             ++ span_open (lit "comment") ++ lit "# base" ++ span_close).
Proof. vm_compute. reflexivity. Qed.

(** C6.  With the language tag constructor the lookup finds the function
    inherited from the prototype of the table, which is truthy and has no
    [forEach]: the classifier throws a TypeError, here on the empty code. *)
Theorem highlightCode_throws_on_constructor :
  own_property (lit "constructor") keywords = None
  /\ highlightCode [] (lit "constructor") = ThrowsTypeError.
Proof. vm_compute. split; reflexivity. Qed.

(** C7.  The tag [__proto__] is not a key of the keyword table, the escape
    and the three passes on the code [1] give the numeral in a number span,
    and the classifier on that code and tag throws a TypeError instead. *)
Theorem highlightCode_proto_differs :
  own_property (toLowerCase (lit "__proto__")) keywords = None
  /\ without_keywords (lit "1")
     = Returns (span_open (lit "number") ++ lit "1" ++ span_close)
  /\ highlightCode (lit "1") (lit "__proto__") = ThrowsTypeError.
Proof. vm_compute. repeat split. Qed.

(** C9.  On the line comment [// `a`] with the tag javascript the keyword
    pass wraps the word class of the opening tag of the comment span: the
    result starts with an angle bracket that belongs to no tag of the
    classifier. *)
Theorem highlightCode_breaks_its_tag :
  let result :=
    lit "<span " ++ span_open (lit "keyword") ++ lit "class" ++ span_close
      ++ lit "=" ++ [dquote] ++ lit "code-comment" ++ [dquote] ++ lit ">// "
      ++ span_open (lit "string") ++ lit "`a`" ++ span_close ++ span_close in
  highlightCode (lit "// `a`") (lit "javascript") = Returns result
  /\ well_tagged result = false.
Proof. vm_compute. split; reflexivity. Qed.

(** C10.  The classifier gives the same on a language tag and on the tag in
    lower case. *)
Theorem highlightCode_tag_case (code language : jsstring) :
  highlightCode code language = highlightCode code (toLowerCase language).
Proof.
  unfold highlightCode. rewrite toLowerCase_idempotent. reflexivity.
Qed.

(** The tags Python and PYTHON select the keywords of python. *)
Example highlightCode_Python_PYTHON :
  highlightCode (lit "def f") (lit "Python")
  = Returns (span_open (lit "keyword") ++ lit "def" ++ span_close ++ lit " f")
  /\ highlightCode (lit "def f") (lit "PYTHON")
     = highlightCode (lit "def f") (lit "python").
Proof. vm_compute. split; reflexivity. Qed.

(** A backtick span is wrapped by the string pass, and a numeral that
    follows a span on its line is left alone by the guard of the number
    pass. *)
Example highlightCode_backticks :
  highlightCode (lit "`a` 1.5 x 12 // 3 ") (lit "JavaScript")
  = Returns (span_open (lit "string") ++ lit "`a`" ++ span_close
             ++ lit " 1.5 x 12 "
             ++ span_open (lit "comment") ++ lit "// 3 " ++ span_close).
Proof. vm_compute. reflexivity. Qed.

(** A numeral and a keyword on a line with no span before them. *)
Example highlightCode_const :
  highlightCode (lit "const x = 10;") (lit "javascript")
  = Returns (span_open (lit "keyword") ++ lit "const" ++ span_close
             ++ lit " x = "
             ++ span_open (lit "number") ++ lit "10" ++ span_close ++ lit ";").
Proof. vm_compute. reflexivity. Qed.

(** The global replace on patterns that match the empty string, and with a
    lookbehind, as an ECMAScript engine has them. *)
Example replaceAll_empty_matches :
  replaceAll (Star (Chr "a")) [TText (lit "X")] (lit "baaac")
  = Some (lit "XbXXcX").
Proof. vm_compute. reflexivity. Qed.

Example replaceAll_lookbehind :
  replaceAll (Seq (Look true false (Chr "a")) (Group (Chr "b")))
    [TText (lit "<"); TGroup1; TText (lit ">")] (lit "abcbab")
  = Some (lit "a<b>cba<b>").
Proof. vm_compute. reflexivity. Qed.

(** The split on white space keeps the empty pieces at both ends. *)
Example split_whitespace :
  split whitespace_run (lit " a b   c  ")
  = Some [[]; lit "a"; lit "b"; lit "c"; []].
Proof. vm_compute. reflexivity. Qed.

(** ** The document update *)

(** C3.  An update with more than 50,000 code units is rejected: the document
    is what it was, so are its statistics, and the notice is raised. *)
Theorem handleMarkdownChange_rejects (value : jsstring) (st : Shell) :
  character_limit < length value ->
  markdown (handleMarkdownChange value st) = markdown st
  /\ stats (markdown (handleMarkdownChange value st)) = stats (markdown st)
  /\ toasts (handleMarkdownChange value st) = content_too_large :: toasts st.
Proof.
  intros H. unfold handleMarkdownChange.
  apply Nat.ltb_lt in H. rewrite H. repeat split.
Qed.

Lemma handleMarkdownChange_rejects_witness :
  character_limit < length (repeat "a"%char (S character_limit))
  /\ (markdown (handleMarkdownChange (repeat "a"%char (S character_limit))
                 {| markdown := lit "# Title"; toasts := [] |})
      = lit "# Title"
      /\ stats (markdown (handleMarkdownChange (repeat "a"%char (S character_limit))
                            {| markdown := lit "# Title"; toasts := [] |}))
         = stats (lit "# Title")
      /\ toasts (handleMarkdownChange (repeat "a"%char (S character_limit))
                   {| markdown := lit "# Title"; toasts := [] |})
         = [content_too_large]).
Proof.
  assert (H : character_limit < length (repeat "a"%char (S character_limit)))
    by (apply Nat.ltb_lt; vm_compute; reflexivity).
  split; [exact H|].
  exact (handleMarkdownChange_rejects (repeat "a"%char (S character_limit))
           {| markdown := lit "# Title"; toasts := [] |} H).
Defined.

(** C4.  An update with at most 50,000 code units replaces the document, and
    the statistics of the new document are: its length; no word when the
    trimmed document is empty, and else the number of maximal runs of code
    units other than white space in the trimmed document; the number of line
    feeds plus one. *)
Theorem handleMarkdownChange_accepts (value : jsstring) (st : Shell) :
  length value <= character_limit ->
  markdown (handleMarkdownChange value st) = value
  /\ stats (markdown (handleMarkdownChange value st))
     = Some {| characters := length value;
               words := count_words value;
               lines := occurrences newline value + 1 |}.
Proof.
  intros H. unfold handleMarkdownChange.
  apply Nat.ltb_ge in H. rewrite H. simpl.
  split; [reflexivity | apply stats_value].
Qed.

Lemma handleMarkdownChange_accepts_witness :
  length (repeat "a"%char character_limit) <= character_limit
  /\ (markdown (handleMarkdownChange (repeat "a"%char character_limit)
                 {| markdown := []; toasts := [] |})
      = repeat "a"%char character_limit
      /\ stats (markdown (handleMarkdownChange (repeat "a"%char character_limit)
                            {| markdown := []; toasts := [] |}))
         = Some {| characters := length (repeat "a"%char character_limit);
                   words := count_words (repeat "a"%char character_limit);
                   lines := occurrences newline (repeat "a"%char character_limit) + 1 |}).
Proof.
  assert (H : length (repeat "a"%char character_limit) <= character_limit)
    by (apply Nat.leb_le; vm_compute; reflexivity).
  split; [exact H|].
  exact (handleMarkdownChange_accepts (repeat "a"%char character_limit)
           {| markdown := []; toasts := [] |} H).
Defined.

(** The statistics of a document of three lines. *)
Example stats_of_three_lines :
  stats (lit "  # Title" ++ [newline] ++ [newline] ++ lit "two  words ")
  = Some {| characters := 22; words := 4; lines := 3 |}.
Proof. vm_compute. reflexivity. Qed.

(** ** The error boundary *)

(** C8.  When the children throw during a render of the boundary in a state
    with no error (the initial state, or the state after a retry), the error
    does not leave the boundary: the panel is displayed in the place of the
    output, the state has [hasError] set and the error is logged.  The retry
    action then clears [hasError], as in the initial state, and the next
    render displays what the children produce, or the panel again when they
    throw again.  (The error last caught stays in the state after the retry;
    [render] does not read it.) *)
Theorem boundary_catches_and_retries (A : Type) (previous : option Error)
    (e e' : Error) (console : list Error) (output : A) :
  let caught := getDerivedStateFromError e in
  renderBoundary {| hasError := false; error := previous |} console (@Threw A e)
  = (caught, e :: console, Panel)
  /\ hasError caught = true
  /\ render caught output = ErrorPanel
  /\ hasError (tryAgain caught) = hasError initialState
  /\ renderBoundary (tryAgain caught) (e :: console) (Produced output)
     = (tryAgain caught, e :: console, Output output)
  /\ renderBoundary (tryAgain caught) (e :: console) (@Threw A e')
     = (getDerivedStateFromError e', e' :: e :: console, Panel).
Proof. cbn. repeat split. Qed.

(** ** The actions of the shell, one after the other *)

Lemma run_app (events events' : list event) (w : World) :
  run (events ++ events') w = run events' (run events w).
Proof. unfold run. apply fold_left_app. Qed.

Lemma handleMarkdownChange_within (value : jsstring) (st : Shell) :
  length (markdown st) <= character_limit ->
  length (markdown (handleMarkdownChange value st)) <= character_limit.
Proof.
  intros H. unfold handleMarkdownChange.
  destruct (character_limit <? length value) eqn:E; [exact H|].
  apply Nat.ltb_ge in E. exact E.
Qed.

Lemma handle_within (e : event) (w : World) :
  length (markdown (shell w)) <= character_limit ->
  length (markdown (shell (handle e w))) <= character_limit.
Proof.
  intros H. destruct e as [value|pastedText|granted| |]; cbn [handle].
  - apply handleMarkdownChange_within. exact H.
  - destruct pastedText; exact H.
  - destruct granted; exact H.
  - exact H.
  - apply Nat.le_0_l.
Qed.

Lemma handle_saved (e : event) (w : World) :
  length (markdown (shell w)) <= character_limit ->
  exists files,
    saved (handle e w) = files ++ saved w /\ Forall markdown_file files.
Proof.
  intros H.
  destruct e as [value|pastedText|granted| |]; cbn [handle];
    try (exists []; split; [reflexivity | constructor]).
  - destruct granted; exists []; (split; [reflexivity | constructor]).
  - eexists [_]. split; [reflexivity|]. constructor; [|constructor].
    repeat split. exact H.
Qed.

Lemma handle_clipboard (e : event) (w : World) :
  length (markdown (shell w)) <= character_limit ->
  clipboard (handle e w) = clipboard w
  \/ length (clipboard (handle e w)) <= character_limit.
Proof.
  intros H. destruct e as [value|pastedText|[|]| |]; cbn [handle];
    try (left; reflexivity).
  right. exact H.
Qed.

(** X1.  Whatever the events, a document within the character limit stays
    within it; every file handed to the browser on the way is named
    document.md, typed text/markdown and within the limit; and the clipboard
    is left as it was or holds a text within the limit. *)
Theorem run_within_limit (events : list event) (w : World) :
  length (markdown (shell w)) <= character_limit ->
  length (markdown (shell (run events w))) <= character_limit
  /\ (exists files,
        saved (run events w) = files ++ saved w /\ Forall markdown_file files)
  /\ (clipboard (run events w) = clipboard w
      \/ length (clipboard (run events w)) <= character_limit).
Proof.
  revert w. induction events as [|e events IH]; intros w H.
  - split; [exact H|]. split; [|left; reflexivity].
    exists []. split; [reflexivity | constructor].
  - change (run (e :: events) w) with (run events (handle e w)).
    destruct (IH (handle e w) (handle_within e w H)) as (Hdoc & Hsaved & Hclip).
    split; [exact Hdoc|]. split.
    + destruct Hsaved as (files & -> & Hfiles).
      destruct (handle_saved e w H) as (files' & -> & Hfiles').
      exists (files ++ files'). split; [apply app_assoc|].
      apply Forall_app. split; assumption.
    + destruct Hclip as [-> | Hclip]; [|right; exact Hclip].
      exact (handle_clipboard e w H).
Qed.

Lemma run_within_limit_witness :
  length (markdown (shell {| shell := {| markdown := lit "# A"; toasts := [] |};
                             clipboard := []; saved := [] |}))
  <= character_limit
  /\ (length (markdown (shell
        (run [Change (lit "text"); Download; Copy true; Clear;
              Change (repeat "a"%char (S character_limit)); Download]
           {| shell := {| markdown := lit "# A"; toasts := [] |};
              clipboard := []; saved := [] |})))
      <= character_limit
      /\ (exists files,
            saved (run [Change (lit "text"); Download; Copy true; Clear;
                        Change (repeat "a"%char (S character_limit)); Download]
                     {| shell := {| markdown := lit "# A"; toasts := [] |};
                        clipboard := []; saved := [] |})
            = files ++ saved {| shell := {| markdown := lit "# A"; toasts := [] |};
                                clipboard := []; saved := [] |}
            /\ Forall markdown_file files)
      /\ (clipboard
            (run [Change (lit "text"); Download; Copy true; Clear;
                  Change (repeat "a"%char (S character_limit)); Download]
               {| shell := {| markdown := lit "# A"; toasts := [] |};
                  clipboard := []; saved := [] |})
          = clipboard {| shell := {| markdown := lit "# A"; toasts := [] |};
                         clipboard := []; saved := [] |}
          \/ length (clipboard
               (run [Change (lit "text"); Download; Copy true; Clear;
                     Change (repeat "a"%char (S character_limit)); Download]
                  {| shell := {| markdown := lit "# A"; toasts := [] |};
                     clipboard := []; saved := [] |}))
             <= character_limit)).
Proof.
  assert (H : length (markdown (shell
                {| shell := {| markdown := lit "# A"; toasts := [] |};
                   clipboard := []; saved := [] |})) <= character_limit)
    by (apply Nat.leb_le; vm_compute; reflexivity).
  split; [exact H|].
  exact (run_within_limit
           [Change (lit "text"); Download; Copy true; Clear;
            Change (repeat "a"%char (S character_limit)); Download]
           {| shell := {| markdown := lit "# A"; toasts := [] |};
              clipboard := []; saved := [] |} H).
Defined.

(** X2.  After any events, a copy that is granted puts the document as it
    then is on the clipboard, a copy that is refused leaves the clipboard
    alone, a download hands over the document as it then is, and none of the
    three changes the document; a paste notice does not change it either. *)
Theorem copy_and_download_take_the_document (events : list event) (w : World)
    (pastedText : jsstring) :
  let now := run events w in
  clipboard (run (events ++ [Copy true]) w) = markdown (shell now)
  /\ clipboard (run (events ++ [Copy false]) w) = clipboard now
  /\ saved (run (events ++ [Download]) w)
     = {| download := lit "document.md";
          blob := {| content := markdown (shell now);
                     type := lit "text/markdown" |} |} :: saved now
  /\ markdown (shell (run (events ++ [Copy true]) w)) = markdown (shell now)
  /\ markdown (shell (run (events ++ [Copy false]) w)) = markdown (shell now)
  /\ markdown (shell (run (events ++ [Download]) w)) = markdown (shell now)
  /\ markdown (shell (run (events ++ [Paste pastedText]) w))
     = markdown (shell now).
Proof.
  cbv zeta. rewrite !run_app. cbn [run fold_left handle].
  repeat split. destruct pastedText; reflexivity.
Qed.

(** X3.  After any events, clearing leaves the empty document: no character,
    no word, one line, and the renderer is given the placeholder text. *)
Theorem clear_empties_the_document (events : list event) (w : World) :
  let cleared := run (events ++ [Clear]) w in
  markdown (shell cleared) = []
  /\ stats (markdown (shell cleared))
     = Some {| characters := 0; words := 0; lines := 1 |}
  /\ previewSource (markdown (shell cleared)) = lit "*No content to preview*"
  /\ toasts (shell cleared) = content_cleared :: toasts (shell (run events w)).
Proof.
  cbv zeta. rewrite run_app. cbn [run fold_left handle].
  repeat split.
Qed.

(** ** More on the statistics *)

Lemma trimStart_nil (s : jsstring) :
  trimStart s = [] <-> forallb isWhiteSpace s = true.
Proof.
  induction s as [|c s IH]; simpl; [tauto|].
  destruct (isWhiteSpace c); simpl; [exact IH|].
  split; discriminate.
Qed.

Lemma forallb_rev (p : ascii -> bool) (s : jsstring) :
  forallb p (rev s) = forallb p s.
Proof.
  induction s as [|c s IH]; [reflexivity|].
  simpl. rewrite forallb_app, IH. simpl. rewrite andb_true_r. apply andb_comm.
Qed.

Lemma trim_nil (s : jsstring) :
  trim s = [] <-> forallb isWhiteSpace s = true.
Proof.
  unfold trim. split.
  - intros H. apply (f_equal (@rev ascii)) in H.
    rewrite rev_involutive in H. simpl in H.
    apply trimStart_nil in H. rewrite forallb_rev in H.
    destruct (trimStart s) as [|c t] eqn:E; [apply trimStart_nil; exact E|].
    pose proof (trimStart_head _ _ _ E) as Hc.
    simpl in H. rewrite Hc in H. discriminate.
  - intros H. apply trimStart_nil in H. rewrite H. reflexivity.
Qed.

Lemma count_words_zero (s : jsstring) :
  count_words s = 0 <-> trim s = [].
Proof.
  unfold count_words. destruct (trim s) as [|c t] eqn:E; [tauto|].
  destruct (trim_ends s c t E) as [Hc _].
  unfold count_runs. simpl. rewrite Hc. split; discriminate.
Qed.

(** X4.  The word count is zero exactly for the documents made of white
    space only, the empty document among them. *)
Theorem no_words_iff_white_space (s : jsstring) :
  option_map words (stats s) = Some 0 <-> forallb isWhiteSpace s = true.
Proof.
  rewrite stats_value. simpl. rewrite <- trim_nil, <- count_words_zero.
  split; [intros H; injection H; auto | intros ->; reflexivity].
Qed.

Lemma count_runs_from_le (s : jsstring) (inRun : bool) :
  count_runs_from inRun s
  <= length (filter (fun c => negb (isWhiteSpace c)) s).
Proof.
  revert inRun. induction s as [|c s IH]; intros inRun; simpl; [lia|].
  destruct (isWhiteSpace c); simpl.
  - apply IH.
  - specialize (IH true). destruct inRun; lia.
Qed.

Lemma count_runs_from_half (s : jsstring) (inRun : bool) :
  2 * count_runs_from inRun s <= length s + (if inRun then 0 else 1).
Proof.
  revert inRun. induction s as [|c s IH]; intros inRun; simpl;
    [destruct inRun; lia|].
  destruct (isWhiteSpace c).
  - specialize (IH false). simpl in IH. destruct inRun; lia.
  - specialize (IH true). simpl in IH. destruct inRun; lia.
Qed.

Lemma black_trimStart (s : jsstring) :
  length (filter (fun c => negb (isWhiteSpace c)) (trimStart s))
  = length (filter (fun c => negb (isWhiteSpace c)) s).
Proof.
  induction s as [|c s IH]; simpl; [reflexivity|].
  destruct (isWhiteSpace c) eqn:E; simpl; [exact IH|].
  rewrite E. reflexivity.
Qed.

Lemma black_rev (s : jsstring) :
  length (filter (fun c => negb (isWhiteSpace c)) (rev s))
  = length (filter (fun c => negb (isWhiteSpace c)) s).
Proof.
  induction s as [|c s IH]; [reflexivity|].
  simpl. rewrite filter_app, length_app, IH. simpl.
  destruct (negb (isWhiteSpace c)); simpl; lia.
Qed.

Lemma black_trim (s : jsstring) :
  length (filter (fun c => negb (isWhiteSpace c)) (trim s))
  = length (filter (fun c => negb (isWhiteSpace c)) s).
Proof.
  unfold trim. rewrite black_rev, black_trimStart, black_rev, black_trimStart.
  reflexivity.
Qed.

Lemma trim_length (s : jsstring) : length (trim s) <= length s.
Proof.
  unfold trim. rewrite length_rev.
  pose proof (trimStart_length (rev (trimStart s))) as H1.
  pose proof (trimStart_length s) as H2.
  rewrite length_rev in H1. lia.
Qed.

Lemma newlines_and_black (s : jsstring) :
  occurrences newline s + length (filter (fun c => negb (isWhiteSpace c)) s)
  <= length s.
Proof.
  unfold occurrences. induction s as [|c s IH]; simpl; [lia|].
  destruct (Ascii.eqb c newline) eqn:E.
  - apply Ascii.eqb_eq in E. subst c. simpl. lia.
  - destruct (negb (isWhiteSpace c)); simpl; lia.
Qed.

(** X5.  For every document the statistics are there, the character count is
    the length, there is at least one line, words and lines together are at
    most one more than the characters, and so is twice the word count. *)
Theorem stats_bounds (s : jsstring) :
  exists st,
    stats s = Some st
    /\ characters st = length s
    /\ 1 <= lines st
    /\ words st + lines st <= characters st + 1
    /\ 2 * words st <= characters st + 1.
Proof.
  rewrite stats_value. eexists. split; [reflexivity|]. cbn [characters words lines].
  assert (Hw : count_words s
               <= length (filter (fun c => negb (isWhiteSpace c)) s)).
  { unfold count_words. destruct (trim s) eqn:E; [lia|].
    rewrite <- E, <- black_trim. apply count_runs_from_le. }
  assert (Hh : 2 * count_words s <= length s + 1).
  { unfold count_words. destruct (trim s) eqn:E; [lia|].
    rewrite <- E. pose proof (count_runs_from_half (trim s) false) as H.
    pose proof (trim_length s). unfold count_runs. simpl in H. lia. }
  pose proof (newlines_and_black s).
  repeat split; lia.
Qed.

Lemma occurrences_app (c : ascii) (s t : jsstring) :
  occurrences c (s ++ t) = occurrences c s + occurrences c t.
Proof. unfold occurrences. rewrite filter_app. apply length_app. Qed.

(** X6.  The lines of two texts put together are the lines of the one and
    of the other less one, and their characters add up. *)
Theorem stats_of_concatenation (s t : jsstring) :
  exists a b c,
    stats s = Some a /\ stats t = Some b /\ stats (s ++ t) = Some c
    /\ characters c = characters a + characters b
    /\ lines c + 1 = lines a + lines b.
Proof.
  rewrite !stats_value. do 3 eexists. repeat (split; [reflexivity|]).
  cbn [characters lines]. rewrite length_app, occurrences_app. lia.
Qed.

(** ** The boundary over several renders *)

Lemma renderEach_in_error (A : Type) (previous : option Error)
    (console : list Error) (attempts : list (attempt A)) :
  renderEach {| hasError := true; error := previous |} console attempts
  = ({| hasError := true; error := previous |}, console,
     repeat Panel (length attempts)).
Proof.
  induction attempts as [|children attempts IH]; [reflexivity|].
  cbn [renderEach renderBoundary render hasError]. rewrite IH. reflexivity.
Qed.

(** X7.  Once the children have thrown, every later render of the boundary
    displays the panel, whatever the children would produce, the state and
    the console stay as the throw left them, and nothing is displayed but
    the panel until the retry action. *)
Theorem boundary_stays_in_error (A : Type) (previous : option Error)
    (e : Error) (console : list Error) (attempts : list (attempt A)) :
  renderEach {| hasError := false; error := previous |} console
    (Threw e :: attempts)
  = (getDerivedStateFromError e, e :: console,
     repeat Panel (S (length attempts))).
Proof.
  pose proof (renderEach_in_error A (Some e) (e :: console) attempts) as H.
  cbn [renderEach]. cbn.
  change (renderEach (getDerivedStateFromError e) (componentDidCatch e console)
            attempts)
    with (renderEach {| hasError := true; error := Some e |} (e :: console)
            attempts).
  rewrite H. reflexivity.
Qed.

(** ** More on the classifier *)

Lemma entity_length (c : ascii) : 1 <= length (entity c) <= 6.
Proof. each_code_unit c; vm_compute; lia. Qed.

Lemma flat_map_entity_length (code : jsstring) :
  length code <= length (flat_map entity code) <= 6 * length code.
Proof.
  induction code as [|c code IH]; simpl; [lia|].
  rewrite length_app. pose proof (entity_length c). lia.
Qed.

(** X8.  The escape returns the code with each ampersand, angle bracket,
    double quote and apostrophe replaced by its entity, once, and every other
    code unit kept: it leaves no angle bracket, double quote or apostrophe,
    and gives at least as many code units as the code has and at most six
    times as many. *)
Theorem escape_replaces_each_once (code : jsstring) :
  escapeHtml code = Some (flat_map entity code)
  /\ Forall (fun c => c <> lt /\ c <> gt /\ c <> dquote /\ c <> apos)
       (flat_map entity code)
  /\ length code <= length (flat_map entity code) <= 6 * length code.
Proof.
  split; [apply escapeHtml_entities|].
  split; [|apply flat_map_entity_length].
  apply (escapeHtml_no_markup code). apply escapeHtml_entities.
Qed.

(** X9.  The classifier throws exactly when the language tag in lower case
    is constructor or __proto__, whatever the code, returns a string exactly
    for the other tags, and never runs out of budget. *)
Theorem highlightCode_throws_exactly (code language : jsstring) :
  (highlightCode code language = ThrowsTypeError
   <-> toLowerCase language = lit "constructor"
       \/ toLowerCase language = lit "__proto__")
  /\ ((exists html, highlightCode code language = Returns html)
      <-> ~ (toLowerCase language = lit "constructor"
             \/ toLowerCase language = lit "__proto__"))
  /\ highlightCode code language <> OutOfBudget.
Proof.
  pose proof (highlightCode_outcome code language) as H.
  pose proof (get_inherited language) as Hget.
  destruct (get (toLowerCase language)) as [|words|].
  - destruct H as [html H]. rewrite H.
    assert (Hno : ~ (toLowerCase language = lit "constructor"
                     \/ toLowerCase language = lit "__proto__"))
      by (intros Hc; apply Hget in Hc; discriminate).
    repeat split; try discriminate; try tauto. eauto.
  - destruct H as [html H]. rewrite H.
    assert (Hno : ~ (toLowerCase language = lit "constructor"
                     \/ toLowerCase language = lit "__proto__"))
      by (intros Hc; apply Hget in Hc; discriminate).
    repeat split; try discriminate; try tauto. eauto.
  - rewrite H. destruct Hget as [Hget _]. specialize (Hget eq_refl).
    repeat split; try discriminate; try tauto.
    + intros [html Hhtml]. discriminate.
Qed.

Lemma occurrences_none (x : ascii) (s : jsstring) :
  Forall (fun c => c <> x) s -> occurrences x s = 0.
Proof.
  unfold occurrences. induction 1 as [|c s Hc _ IH]; [reflexivity|].
  simpl. destruct (Ascii.eqb c x) eqn:E; [|exact IH].
  apply Ascii.eqb_eq in E. contradiction.
Qed.

Lemma span_tag_brackets (t : jsstring) :
  In t span_tags -> occurrences lt t = 1 /\ occurrences gt t = 1.
Proof.
  unfold span_tags. simpl.
  intros [<- | [<- | [<- | [<- | [<- | []]]]]]; vm_compute; split; reflexivity.
Qed.

Lemma Woven_brackets (s out : jsstring) :
  Woven s out ->
  occurrences lt out + occurrences gt s = occurrences gt out + occurrences lt s
  /\ length s <= length out.
Proof.
  induction 1 as [|u v t _ [IH1 IH2] Ht]; [split; lia|].
  destruct (span_tag_brackets t Ht) as [Hl Hg].
  rewrite !occurrences_app in IH1. rewrite length_app in IH2.
  rewrite !occurrences_app, !length_app. split; lia.
Qed.

(** X10.  What the classifier returns is the escaped code with span tags of
    the classifier inserted into it and nothing else changed, so every angle
    bracket of the result came with an inserted tag and none from the code:
    the result has as many opening as closing angle brackets and is no
    shorter than the escaped code. *)
Theorem output_is_escaped_code_with_tags (code language html : jsstring) :
  highlightCode code language = Returns html ->
  Woven (flat_map entity code) html
  /\ occurrences lt html = occurrences gt html
  /\ length (flat_map entity code) <= length html.
Proof.
  intros H. apply highlightCode_woven in H. split; [exact H|].
  destruct (Woven_brackets _ _ H) as [Hb Hlen].
  pose proof (escapeHtml_no_markup code _ (escapeHtml_entities code)) as Hm.
  assert (Hl : occurrences lt (flat_map entity code) = 0).
  { apply occurrences_none. eapply Forall_impl; [|exact Hm].
    intros c Hc. apply Hc. }
  assert (Hg : occurrences gt (flat_map entity code) = 0).
  { apply occurrences_none. eapply Forall_impl; [|exact Hm].
    intros c Hc. apply Hc. }
  split; [lia | exact Hlen].
Qed.

Lemma output_is_escaped_code_with_tags_witness :
  highlightCode (lit "if (a < 1) `b`") (lit "javascript")
  = Returns (span_open (lit "keyword") ++ lit "if" ++ span_close
             ++ lit " (a &lt; " ++ span_open (lit "number") ++ lit "1"
             ++ span_close ++ lit ") "
             ++ span_open (lit "string") ++ lit "`b`" ++ span_close)
  /\ (Woven (flat_map entity (lit "if (a < 1) `b`"))
        (span_open (lit "keyword") ++ lit "if" ++ span_close
         ++ lit " (a &lt; " ++ span_open (lit "number") ++ lit "1"
         ++ span_close ++ lit ") "
         ++ span_open (lit "string") ++ lit "`b`" ++ span_close)
      /\ occurrences lt
           (span_open (lit "keyword") ++ lit "if" ++ span_close
            ++ lit " (a &lt; " ++ span_open (lit "number") ++ lit "1"
            ++ span_close ++ lit ") "
            ++ span_open (lit "string") ++ lit "`b`" ++ span_close)
         = occurrences gt
             (span_open (lit "keyword") ++ lit "if" ++ span_close
              ++ lit " (a &lt; " ++ span_open (lit "number") ++ lit "1"
              ++ span_close ++ lit ") "
              ++ span_open (lit "string") ++ lit "`b`" ++ span_close)
      /\ length (flat_map entity (lit "if (a < 1) `b`"))
         <= length
              (span_open (lit "keyword") ++ lit "if" ++ span_close
               ++ lit " (a &lt; " ++ span_open (lit "number") ++ lit "1"
               ++ span_close ++ lit ") "
               ++ span_open (lit "string") ++ lit "`b`" ++ span_close)).
Proof.
  assert (H : highlightCode (lit "if (a < 1) `b`") (lit "javascript")
              = Returns (span_open (lit "keyword") ++ lit "if" ++ span_close
                         ++ lit " (a &lt; " ++ span_open (lit "number")
                         ++ lit "1" ++ span_close ++ lit ") "
                         ++ span_open (lit "string") ++ lit "`b`"
                         ++ span_close))
    by (vm_compute; reflexivity).
  split; [exact H|].
  exact (output_is_escaped_code_with_tags _ _ _ H).
Defined.

(** X11.  On every escaped code the string pass is the replace with the
    backtick alternative alone: the alternatives of the pattern for the
    double quote and for the apostrophe never match, so double-quoted and
    single-quoted spans are never wrapped. *)
Theorem quoted_spans_never_wrapped (code : jsstring) (t : template) :
  replaceAll string_pattern t (flat_map entity code)
  = replaceAll backtick_pattern t (flat_map entity code).
Proof.
  apply (string_pass_backticks_only code). apply escapeHtml_entities.
Qed.

Lemma own_property_in (key : jsstring) (o : list (jsstring * list jsstring))
    (words : list jsstring) :
  own_property key o = Some words -> In words (map snd o).
Proof.
  induction o as [|[k v] o IH]; simpl; [discriminate|].
  destruct (jsstring_eqb k key).
  - intros H. injection H as <-. left. reflexivity.
  - intros H. right. exact (IH H).
Qed.

Lemma keywords_on_empty :
  Forall (fun words => forEach_keyword words [] = Some []) (map snd keywords).
Proof. repeat constructor. Qed.

(** X12.  On the empty code the classifier returns the empty string for
    every language tag, but for the two tags on which it throws. *)
Theorem highlightCode_empty (language : jsstring) :
  highlightCode [] language
  = match get (toLowerCase language) with
    | Inherited => ThrowsTypeError
    | _ => Returns []
    end.
Proof.
  assert (He : escapeHtml [] = Some []) by reflexivity.
  assert (Hc : classify [] = Some []) by reflexivity.
  unfold highlightCode, get. rewrite He, Hc.
  destruct (own_property (toLowerCase language) keywords) as [words|] eqn:E.
  - apply own_property_in in E.
    pose proof keywords_on_empty as H. rewrite Forall_forall in H.
    cbn [or_empty]. rewrite (H words E). reflexivity.
  - destruct (existsb _ _); reflexivity.
Qed.

(** ** Code that no pass looks for *)

Lemma plain_entity (c : ascii) : plain c = true -> entity c = [c].
Proof. each_code_unit c; vm_compute; intros H; (reflexivity || discriminate H). Qed.

Lemma plain_not_delimiter (c : ascii) :
  plain c = true ->
  c <> backtick /\ c <> dquote /\ c <> apos /\ c <> "/"%char /\ c <> "#"%char
  /\ isDigit c = false.
Proof.
  each_code_unit c; vm_compute; intros H; try discriminate H;
    repeat split; discriminate.
Qed.

Lemma plain_escape (code : jsstring) :
  forallb plain code = true -> flat_map entity code = code.
Proof.
  induction code as [|c code IH]; [reflexivity|].
  simpl. intros H. apply andb_true_iff in H. destruct H as [Hc H].
  rewrite (plain_entity c Hc), (IH H). reflexivity.
Qed.

(** A replace whose pattern matches nowhere gives the string back. *)
Lemma replaceAll_no_match (r : regex) (t : template) (s : jsstring)
    (P : jsstring -> Prop) :
  (forall b a, P a -> total (mkPos b a) < budget s ->
     matcher r Forward (budget s) (mkPos b a) (fun y => Matched y) = Failure) ->
  (forall c a, P (c :: a) -> P a) ->
  P s ->
  replaceAll r t s = Some s.
Proof.
  intros Hfail Htail Hs.
  assert (Hexec : forall a b, P a -> total (mkPos b a) < budget s ->
            exec r (budget s) b a = NotFound).
  { induction a as [|c a IH]; intros b Ha Hn; cbn [exec];
      rewrite (Hfail _ _ Ha Hn); [reflexivity|].
    apply IH; [exact (Htail c a Ha)|].
    unfold total in *. simpl in *. lia. }
  unfold replaceAll. replace (length s + 2) with (S (S (length s))) by lia.
  cbn [collect startOf before after].
  rewrite (Hexec s [] Hs) by (unfold total, budget; simpl; lia).
  cbn [accumulate]. unfold substring. rewrite Nat.sub_0_r. cbn [skipn].
  rewrite firstn_all. reflexivity.
Qed.

Lemma string_pattern_fails (n : nat) (x : Pos) (k : Pos -> MatchResult) :
  at_plain (after x) -> matcher string_pattern Forward n x k = Failure.
Proof.
  intros H. unfold string_pattern. cbn [matcher].
  assert (Hq : forall q, q = backtick \/ q = dquote \/ q = apos ->
            match after x with c :: _ => c <> q | [] => True end).
  { intros q Hq. unfold at_plain in H. destruct (after x) as [|c a]; [exact I|].
    destruct (plain_not_delimiter c H) as (H1 & H2 & H3 & _).
    destruct Hq as [-> | [-> | ->]]; assumption. }
  rewrite (delimited_fails backtick) by (apply Hq; auto).
  rewrite (delimited_fails dquote) by (apply Hq; auto).
  rewrite (delimited_fails apos) by (apply Hq; auto).
  reflexivity.
Qed.

Lemma comment_pattern_fails (n : nat) (x : Pos) (k : Pos -> MatchResult) :
  at_plain (after x) -> matcher comment_pattern Forward n x k = Failure.
Proof.
  intros H.
  assert (Hq : forall q, q = "/"%char \/ q = "#"%char ->
            match after x with c :: _ => c <> q | [] => True end).
  { intros q Hq. unfold at_plain in H. destruct (after x) as [|c a]; [exact I|].
    destruct (plain_not_delimiter c H) as (_ & _ & _ & H4 & H5 & _).
    destruct Hq as [-> | ->]; assumption. }
  assert (Hmiss : forall q, q = "/"%char \/ q = "#"%char ->
            advance Forward (Ascii.eqb q) x = None).
  { intros q Hq'. specialize (Hq q Hq'). unfold advance.
    destruct (after x) as [|c a]; [reflexivity|].
    destruct (Ascii.eqb q c) eqn:E; [|reflexivity].
    apply Ascii.eqb_eq in E. congruence. }
  unfold comment_pattern, Lit.
  cbn [lit list_ascii_of_string map seqs]. cbn [matcher].
  rewrite (Hmiss "/"%char) by auto. rewrite (Hmiss "#"%char) by auto.
  reflexivity.
Qed.

Lemma number_pattern_fails (n : nat) (x : Pos) (k : Pos -> MatchResult) :
  at_plain (after x) ->
  total x < n ->
  matcher number_pattern Forward n x k = Failure.
Proof.
  intros H Hn.
  assert (Hmiss : advance Forward isDigit x = None).
  { unfold advance. unfold at_plain in H.
    destruct (after x) as [|c a]; [reflexivity|].
    destruct (plain_not_delimiter c H) as (_ & _ & _ & _ & _ & Hd).
    rewrite Hd. reflexivity. }
  unfold number_pattern. cbn [seqs]. cbn [matcher].
  pose proof (matcher_budget
                (seqs (open_tag_pattern ++ [Star (Cls dot)])) Backward n x
                (fun y => Matched y)) as Hb.
  destruct (matcher (seqs (open_tag_pattern ++ [Star (Cls dot)])) Backward n x
              (fun y => Matched y)) as [y| |].
  - reflexivity.
  - destruct (xorb (wordBefore x) (wordAfter x)); [|reflexivity].
    unfold Plus. cbn [matcher Nat.add]. rewrite repeatMatcher_step.
    cbn [Nat.eqb negb matcher]. rewrite Hmiss. reflexivity.
  - exfalso. apply Hb; [discriminate | exact Hn | reflexivity].
Qed.

Lemma at_plain_all (a : jsstring) : forallb plain a = true -> at_plain a.
Proof.
  destruct a as [|c a]; [exact (fun _ => I)|].
  simpl. intros H. apply andb_true_iff in H. apply H.
Qed.

Lemma classify_plain (code : jsstring) :
  forallb plain code = true -> classify code = Some code.
Proof.
  intros H.
  assert (Htail : forall c a, forallb plain (c :: a) = true ->
            forallb plain a = true).
  { intros c a Hca. simpl in Hca. apply andb_true_iff in Hca. apply Hca. }
  unfold classify.
  rewrite (replaceAll_no_match string_pattern _ code
             (fun a => forallb plain a = true)); [|  | exact Htail | exact H].
  - rewrite (replaceAll_no_match comment_pattern _ code
               (fun a => forallb plain a = true)); [|  | exact Htail | exact H].
    + apply (replaceAll_no_match number_pattern _ code
               (fun a => forallb plain a = true)); [| exact Htail | exact H].
      intros b a Ha Hn. apply number_pattern_fails; [|exact Hn].
      apply at_plain_all. exact Ha.
    + intros b a Ha _. apply comment_pattern_fails. apply at_plain_all. exact Ha.
  - intros b a Ha _. apply string_pattern_fails. apply at_plain_all. exact Ha.
Qed.

(** X13.  A code with none of the five escaped characters, no backtick, no
    slash, no hash and no digit comes back unchanged for every language tag
    that the lookup does not find: no entity is put in and no span. *)
Theorem plain_code_unchanged (code language : jsstring) :
  forallb plain code = true ->
  get (toLowerCase language) = Undefined ->
  highlightCode code language = Returns code.
Proof.
  intros Hplain Hget.
  rewrite (highlightCode_undefined code language Hget).
  unfold without_keywords.
  rewrite escapeHtml_entities, (plain_escape code Hplain).
  rewrite (classify_plain code Hplain). reflexivity.
Qed.

Lemma plain_code_unchanged_witness :
  forallb plain (lit "Hello, world; x = y (z)") = true
  /\ get (toLowerCase (lit "Text")) = Undefined
  /\ highlightCode (lit "Hello, world; x = y (z)") (lit "Text")
     = Returns (lit "Hello, world; x = y (z)").
Proof.
  assert (H1 : forallb plain (lit "Hello, world; x = y (z)") = true)
    by (vm_compute; reflexivity).
  assert (H2 : get (toLowerCase (lit "Text")) = Undefined)
    by (vm_compute; reflexivity).
  split; [exact H1|]. split; [exact H2|].
  exact (plain_code_unchanged _ _ H1 H2).
Defined.

(** ** The code component *)

Lemma match_snoc (B : Type) (pre : jsstring) (x : ascii) (u v : B) :
  match pre ++ [x] with [] => u | _ :: _ => v end = v.
Proof. destruct pre; reflexivity. Qed.

Lemma exec_final_newline_hit (n : nat) (pre b : jsstring) :
  exec final_newline n b (pre ++ [newline])
  = Found (mkPos (rev pre ++ b) [newline]) (mkPos (newline :: rev pre ++ b) []).
Proof.
  revert b. induction pre as [|c pre IH]; intros b.
  - reflexivity.
  - cbn [app exec]. unfold final_newline at 1. cbn [matcher advance after before].
    destruct (Ascii.eqb newline c).
    + cbn [after]. rewrite match_snoc. rewrite IH. cbn [rev].
      rewrite <- !app_assoc. reflexivity.
    + rewrite IH. cbn [rev]. rewrite <- !app_assoc. reflexivity.
Qed.

Lemma exec_final_newline_miss (n : nat) (pre : jsstring) (c : ascii) (b : jsstring) :
  Ascii.eqb c newline = false ->
  exec final_newline n b (pre ++ [c]) = NotFound.
Proof.
  intros Hc. assert (Hc' : Ascii.eqb newline c = false)
    by (rewrite Ascii.eqb_sym; exact Hc).
  revert b. induction pre as [|d pre IH]; intros b.
  - cbn [app exec]. unfold final_newline. cbn [matcher advance after before].
    rewrite Hc'. reflexivity.
  - cbn [app exec]. unfold final_newline at 1. cbn [matcher advance after before].
    destruct (Ascii.eqb newline d).
    + cbn [after]. rewrite match_snoc. apply IH.
    + apply IH.
Qed.

(** X14.  The replace of line 237 takes one line feed off the end of the
    code of a block when there is one there, and changes nothing else: line
    feeds inside the code and a second line feed at the end are kept. *)
Theorem final_newline_removed_once (children : jsstring) :
  replaceFirst final_newline [] children
  = Some (without_final_newline children).
Proof.
  unfold replaceFirst, without_final_newline.
  destruct (rev children) as [|c r] eqn:E.
  - apply (f_equal (@rev ascii)) in E. rewrite rev_involutive in E.
    subst children. reflexivity.
  - apply (f_equal (@rev ascii)) in E. rewrite rev_involutive in E.
    cbn [rev] in E. subst children.
    destruct (Ascii.eqb c newline) eqn:Hc.
    + apply Ascii.eqb_eq in Hc. subst c.
      rewrite exec_final_newline_hit. f_equal.
      unfold endIndex. cbn [before length getSubstitution flat_map app].
      rewrite app_nil_r, length_rev.
      unfold substring.
      rewrite (skipn_all2 (n := S (length (rev r))))
        by (rewrite length_app; simpl; lia).
      rewrite firstn_nil, app_nil_r, Nat.sub_0_r.
      change (skipn 0 (rev r ++ [newline])) with (rev r ++ [newline]).
      rewrite firstn_app, firstn_all, Nat.sub_diag. cbn [firstn].
      rewrite app_nil_r. reflexivity.
    + rewrite exec_final_newline_miss by exact Hc. reflexivity.
Qed.

(** The pattern characters of a text match that text and nothing else. *)
Lemma matcher_Lit (n : nat) (s : jsstring) :
  forall (x : Pos) (k : Pos -> MatchResult),
    matcher (Lit s) Forward n x k
    = match strip_prefix s (after x) with
      | Some a => k (mkPos (rev s ++ before x) a)
      | None => Failure
      end.
Proof.
  unfold Lit. induction s as [|c s IH]; intros x k.
  - destruct x. reflexivity.
  - assert (Hstep : matcher (seqs (map Chr (c :: s))) Forward n x k
                    = matcher (Chr c) Forward n x
                        (fun y => matcher (seqs (map Chr s)) Forward n y k)).
    { destruct s; reflexivity. }
    rewrite Hstep. cbn [matcher advance strip_prefix].
    destruct (after x) as [|d a]; [reflexivity|].
    destruct (Ascii.eqb c d) eqn:E; [|reflexivity].
    apply Ascii.eqb_eq in E. subst d. rewrite IH. cbn [after before rev].
    rewrite <- app_assoc. reflexivity.
Qed.

Lemma strip_prefix_app (p a : jsstring) : strip_prefix p (p ++ a) = Some a.
Proof.
  induction p as [|c p IH]; [reflexivity|].
  simpl. rewrite Ascii.eqb_refl. exact IH.
Qed.

Lemma strip_prefix_some (p s a : jsstring) :
  strip_prefix p s = Some a -> s = p ++ a.
Proof.
  revert s. induction p as [|c p IH]; intros s; simpl.
  - intros H. injection H as <-. reflexivity.
  - destruct s as [|d s]; [discriminate|].
    destruct (Ascii.eqb c d) eqn:E; [|discriminate].
    apply Ascii.eqb_eq in E. subst d. intros H. rewrite (IH s H). reflexivity.
Qed.

(** The greedy loop of a class goes to the end of the run of the class. *)
Lemma repeat_class (p : ascii -> bool) (n : nat) (run rest b : jsstring)
    (fuel : nat) :
  forallb p run = true ->
  match rest with c :: _ => p c = false | [] => True end ->
  length run < fuel ->
  repeatMatcher (matcher (Cls p) Forward n) fuel 0 None true
    (mkPos b (run ++ rest)) (fun y => Matched y)
  = Matched (mkPos (rev run ++ b) rest).
Proof.
  intros Hrun Hrest. revert b fuel.
  induction run as [|w run IH]; intros b fuel Hfuel.
  - destruct fuel as [|fuel]; [simpl in Hfuel; lia|].
    rewrite repeatMatcher_step. cbn [matcher advance after before app rev].
    destruct rest as [|c rest]; [reflexivity|]. rewrite Hrest. reflexivity.
  - destruct fuel as [|fuel]; [simpl in Hfuel; lia|].
    simpl in Hfuel, Hrun. apply andb_true_iff in Hrun. destruct Hrun as [Hw Hrun].
    rewrite repeatMatcher_step. cbn [matcher advance after before app].
    rewrite Hw. unfold endIndex. cbn [before length].
    rewrite succ_eqb. cbn [Nat.eqb andb negb pred option_map].
    rewrite (IH Hrun) by lia. cbn [rev]. rewrite <- app_assoc. reflexivity.
Qed.

Lemma language_pattern_matches (n : nat) (b : jsstring) (c : ascii)
    (word rest : jsstring) :
  forallb isWordChar (c :: word) = true ->
  match rest with d :: _ => isWordChar d = false | [] => True end ->
  length word < n ->
  matcher language_pattern Forward n
    (mkPos b (language_prefix ++ (c :: word) ++ rest)) (fun y => Matched y)
  = Matched (mkPos (rev (c :: word) ++ rev language_prefix ++ b) rest).
Proof.
  intros Hword Hrest Hn. unfold language_pattern. cbn [seqs].
  change (matcher (Seq (Lit language_prefix) (Group (Plus (Cls isWordChar))))
            Forward n (mkPos b (language_prefix ++ (c :: word) ++ rest))
            (fun y => Matched y))
    with (matcher (Lit language_prefix) Forward n
            (mkPos b (language_prefix ++ (c :: word) ++ rest))
            (fun y => matcher (Plus (Cls isWordChar)) Forward n y
                        (fun y => Matched y))).
  rewrite matcher_Lit. cbn [after before]. rewrite strip_prefix_app.
  unfold Plus. cbn [matcher Nat.add]. rewrite repeatMatcher_step.
  cbn [Nat.eqb negb matcher advance after before app pred option_map andb].
  simpl in Hword. apply andb_true_iff in Hword. destruct Hword as [Hc Hword].
  rewrite Hc. rewrite (repeat_class isWordChar n word rest _ n Hword Hrest Hn).
  cbn [rev]. rewrite <- !app_assoc. reflexivity.
Qed.

Lemma exec_matched (r : regex) (n : nat) (b a : jsstring) (y : Pos) :
  matcher r Forward n (mkPos b a) (fun y => Matched y) = Matched y ->
  exec r n b a = Found (mkPos b a) y.
Proof. intros H. destruct a; cbn [exec]; rewrite H; reflexivity. Qed.

(** X15.  For a block (not inline) whose class is language- followed by one
    or more word characters, and then nothing or a code unit that is not a
    word character, the component takes those word characters as the
    language, takes one final line feed off the code, and returns the block
    with what the classifier returns for that code and language; when the
    classifier throws, so does the component. *)
Theorem code_highlights_block (c : ascii) (word rest children : jsstring) :
  forallb isWordChar (c :: word) = true ->
  match rest with d :: _ => isWordChar d = false | [] => True end ->
  code false (Some (language_prefix ++ (c :: word) ++ rest)) children
  = match highlightCode (without_final_newline children) (c :: word) with
    | Returns highlightedCode =>
        Some (Produced (CodeBlock (c :: word) (without_final_newline children)
                          highlightedCode))
    | ThrowsTypeError => Some (Threw forEach_is_not_a_function)
    | OutOfBudget => None
    end.
Proof.
  intros Hword Hrest. unfold code, matchLanguage.
  set (subject := language_prefix ++ (c :: word) ++ rest).
  assert (Hn : length word < budget subject).
  { unfold budget, subject. rewrite !length_app. simpl. lia. }
  pose proof (exec_matched language_pattern (budget subject) [] subject _
                (language_pattern_matches (budget subject) [] c word rest
                   Hword Hrest Hn)) as Hexec.
  rewrite Hexec. unfold endIndex. cbn [before length Nat.add].
  rewrite app_nil_r, length_app, !length_rev.
  replace (length language_prefix) with 9 by reflexivity.
  assert (Hsub : substring subject 9 (length (c :: word) + 9) = c :: word).
  { unfold subject.
    pose proof (substring_middle language_prefix (c :: word) rest) as H.
    replace (length language_prefix) with 9 in H by reflexivity.
    rewrite Nat.add_comm. exact H. }
  rewrite Hsub. rewrite final_newline_removed_once. reflexivity.
Qed.

Lemma code_highlights_block_witness :
  forallb isWordChar (lit "python") = true
  /\ match lit " hljs" with d :: _ => isWordChar d = false | [] => True end
  /\ code false (Some (language_prefix ++ lit "python" ++ lit " hljs"))
       (lit "x" ++ [newline] ++ [newline])
     = match highlightCode (without_final_newline (lit "x" ++ [newline] ++ [newline]))
               (lit "python") with
       | Returns highlightedCode =>
           Some (Produced (CodeBlock (lit "python")
                             (without_final_newline (lit "x" ++ [newline] ++ [newline]))
                             highlightedCode))
       | ThrowsTypeError => Some (Threw forEach_is_not_a_function)
       | OutOfBudget => None
       end.
Proof.
  assert (H1 : forallb isWordChar (lit "python") = true)
    by (vm_compute; reflexivity).
  assert (H2 : match lit " hljs" with d :: _ => isWordChar d = false | [] => True end)
    by (vm_compute; reflexivity).
  split; [exact H1|]. split; [exact H2|].
  exact (code_highlights_block "p"%char (lit "ython") (lit " hljs")
           (lit "x" ++ [newline] ++ [newline]) H1 H2).
Defined.

(** X16.  Inline code is returned as the inline element with its text as it
    is, whatever its class, and so is a block with no class: neither reaches
    the classifier, and neither can throw. *)
Theorem code_inline_as_it_is (className : option jsstring) (children : jsstring) :
  code true className children = Some (Produced (InlineCode children))
  /\ code false None children = Some (Produced (InlineCode children)).
Proof.
  split; [|reflexivity].
  unfold code, matchLanguage.
  set (subject := match className with Some c => c | None => [] end).
  pose proof (exec_budget language_pattern (budget subject) subject []) as Hb.
  destruct (exec language_pattern (budget subject) [] subject) as [x y| |].
  - reflexivity.
  - reflexivity.
  - exfalso. apply Hb; [|reflexivity]. unfold total, budget. simpl. lia.
Qed.

Lemma matcher_Cls (p : ascii -> bool) (n : nat) (x : Pos)
    (k : Pos -> MatchResult) :
  matcher (Cls p) Forward n x k
  = match advance Forward p x with Some y => k y | None => Failure end.
Proof. reflexivity. Qed.

Lemma advance_forward (p : ascii -> bool) (x y : Pos) :
  advance Forward p x = Some y ->
  exists c, after x = c :: after y /\ before y = c :: before x /\ p c = true.
Proof.
  unfold advance. destruct (after x) as [|c a]; [discriminate|].
  destruct (p c) eqn:E; [|discriminate].
  intros H. injection H as <-. exists c. repeat split. exact E.
Qed.

(** What the loop of a class goes over is a run of the class. *)
Lemma repeat_class_run (p : ascii -> bool) (n : nat) (y : Pos) :
  forall fuel min x,
    repeatMatcher (matcher (Cls p) Forward n) fuel min None true x
      (fun y => Matched y) = Matched y ->
    exists run,
      after x = run ++ after y /\ before y = rev run ++ before x
      /\ forallb p run = true /\ min <= length run.
Proof.
  induction fuel as [|fuel IH]; intros min x H; [discriminate|].
  rewrite repeatMatcher_step in H. cbv zeta in H. cbn [option_map] in H.
  rewrite !matcher_Cls in H.
  assert (Hnext : forall x' min',
            advance Forward p x = Some x' ->
            repeatMatcher (matcher (Cls p) Forward n) fuel min' None true x'
              (fun y => Matched y) = Matched y ->
            exists run,
              after x = run ++ after y /\ before y = rev run ++ before x
              /\ forallb p run = true /\ S min' <= length run).
  { intros x' min' Ha Hr. apply IH in Hr.
    destruct Hr as (run & H1 & H2 & H3 & H4).
    destruct (advance_forward p x x' Ha) as (c & Hc1 & Hc2 & Hc3).
    exists (c :: run). rewrite Hc1, H1, H2, Hc2. cbn [rev forallb length app].
    rewrite Hc3, H3, <- app_assoc.
    split; [reflexivity|]. split; [reflexivity|]. split; [reflexivity|]. lia. }
  assert (Hstay : Matched x = Matched y ->
            min = 0 ->
            exists run,
              after x = run ++ after y /\ before y = rev run ++ before x
              /\ forallb p run = true /\ min <= length run).
  { intros Hx Hmin. injection Hx as Hx. rewrite <- Hx, Hmin. exists [].
    split; [reflexivity|]. split; [reflexivity|]. split; [reflexivity|].
    apply le_n. }
  destruct (advance Forward p x) as [x'|] eqn:Ea.
  - destruct min as [|min]; cbn [Nat.eqb negb andb pred] in H.
    + destruct (endIndex x' =? endIndex x).
      * exact (Hstay H eq_refl).
      * destruct (repeatMatcher (matcher (Cls p) Forward n) fuel 0 None true x'
                    (fun y => Matched y)) as [z| |] eqn:Er.
        -- injection H as ->.
           destruct (Hnext x' 0 eq_refl Er) as (run & H1 & H2 & H3 & H4).
           exists run. repeat split; try assumption. lia.
        -- exact (Hstay H eq_refl).
        -- discriminate.
    + exact (Hnext x' min eq_refl H).
  - destruct min as [|min]; cbn [Nat.eqb negb andb pred] in H.
    + exact (Hstay H eq_refl).
    + discriminate.
Qed.

Lemma exec_found (r : regex) (n : nat) (x y : Pos) :
  forall a b,
    exec r n b a = Found x y ->
    matcher r Forward n x (fun y => Matched y) = Matched y
    /\ exists pre, a = pre ++ after x /\ before x = rev pre ++ b.
Proof.
  induction a as [|c a IH]; intros b; cbn [exec];
    destruct (matcher r Forward n (mkPos b _) (fun y => Matched y))
      as [z| |] eqn:E; try discriminate.
  - intros H. injection H as <- <-. split; [exact E|]. exists []. split; reflexivity.
  - intros H. injection H as <- <-. split; [exact E|]. exists []. split; reflexivity.
  - intros H. apply IH in H. destruct H as (Hm & pre & H1 & H2).
    split; [exact Hm|]. exists (c :: pre). rewrite H1, H2. cbn [rev app].
    rewrite <- app_assoc. split; reflexivity.
Qed.

(** X17.  Whatever the class, a language that the component takes from it
    is a run of one or more word characters that follows the text language-
    in the class. *)
Theorem language_is_a_word (className language : jsstring) :
  matchLanguage (Some className) = Some (Some language) ->
  language <> []
  /\ forallb isWordChar language = true
  /\ exists pre post, className = pre ++ language_prefix ++ language ++ post.
Proof.
  unfold matchLanguage.
  destruct (exec language_pattern (budget className) [] className)
    as [x y| |] eqn:E; try discriminate.
  intros H. injection H as <-.
  apply exec_found in E. destruct E as (Hm & pre & Hpre & Hbefore).
  unfold language_pattern in Hm. cbn [seqs] in Hm.
  change (matcher (Seq (Lit language_prefix) (Group (Plus (Cls isWordChar))))
            Forward (budget className) x (fun y => Matched y))
    with (matcher (Lit language_prefix) Forward (budget className) x
            (fun y => matcher (Plus (Cls isWordChar)) Forward (budget className) y
                        (fun y => Matched y))) in Hm.
  rewrite matcher_Lit in Hm.
  destruct (strip_prefix language_prefix (after x)) as [a|] eqn:Ep;
    [|discriminate].
  apply strip_prefix_some in Ep.
  unfold Plus in Hm. cbn [matcher] in Hm.
  apply (repeat_class_run isWordChar (budget className)) in Hm.
  cbn [after before] in Hm.
  destruct Hm as (run & Hrun & Hy & Hword & Hlen).
  assert (Hsubject : className = (pre ++ language_prefix) ++ run ++ after y)
    by (rewrite Hpre, Ep, Hrun, <- app_assoc; reflexivity).
  assert (Hlanguage :
            substring className (endIndex x + length language_prefix) (endIndex y)
            = run).
  { unfold endIndex. rewrite Hy, Hbefore, !length_app, !length_rev.
    cbn [length].
    pose proof (substring_middle (pre ++ language_prefix) run (after y)) as Hs.
    rewrite <- Hsubject, length_app in Hs.
    replace (length pre + 0 + length language_prefix)
      with (length pre + length language_prefix) by lia.
    replace (length run + (length language_prefix + (length pre + 0)))
      with (length pre + length language_prefix + length run) by lia.
    exact Hs. }
  change (length language_prefix) with 9 in Hlanguage.
  rewrite Hlanguage. split; [|split; [exact Hword|]].
  - destruct run; [simpl in Hlen; lia | discriminate].
  - exists pre, (after y). rewrite Hsubject, <- app_assoc. reflexivity.
Qed.

Lemma language_is_a_word_witness :
  matchLanguage (Some (lit "hljs language-c99 x")) = Some (Some (lit "c99"))
  /\ (lit "c99" <> []
      /\ forallb isWordChar (lit "c99") = true
      /\ exists pre post,
           lit "hljs language-c99 x" = pre ++ language_prefix ++ lit "c99" ++ post).
Proof.
  assert (H : matchLanguage (Some (lit "hljs language-c99 x"))
              = Some (Some (lit "c99"))) by (vm_compute; reflexivity).
  split; [exact H|].
  exact (language_is_a_word (lit "hljs language-c99 x") (lit "c99") H).
Defined.

(** X18.  For a block whose class gives a language as in X15, the component
    throws exactly when that language in lower case is constructor or
    __proto__, whatever the code of the block; for every other language it
    returns the block. *)
Theorem code_throws_exactly (c : ascii) (word rest children : jsstring) :
  forallb isWordChar (c :: word) = true ->
  match rest with d :: _ => isWordChar d = false | [] => True end ->
  (code false (Some (language_prefix ++ (c :: word) ++ rest)) children
   = Some (Threw forEach_is_not_a_function)
   <-> toLowerCase (c :: word) = lit "constructor"
       \/ toLowerCase (c :: word) = lit "__proto__")
  /\ ((exists highlightedCode,
         code false (Some (language_prefix ++ (c :: word) ++ rest)) children
         = Some (Produced (CodeBlock (c :: word)
                             (without_final_newline children) highlightedCode)))
      <-> ~ (toLowerCase (c :: word) = lit "constructor"
             \/ toLowerCase (c :: word) = lit "__proto__")).
Proof.
  intros Hword Hrest.
  rewrite (code_highlights_block c word rest children Hword Hrest).
  pose proof (highlightCode_outcome (without_final_newline children) (c :: word))
    as H.
  pose proof (get_inherited (c :: word)) as Hget.
  destruct (get (toLowerCase (c :: word))) as [|words|].
  - destruct H as [html ->].
    assert (Hno : ~ (toLowerCase (c :: word) = lit "constructor"
                     \/ toLowerCase (c :: word) = lit "__proto__"))
      by (intros Hc; apply Hget in Hc; discriminate).
    split; split; try tauto; try discriminate. intros _. eauto.
  - destruct H as [html ->].
    assert (Hno : ~ (toLowerCase (c :: word) = lit "constructor"
                     \/ toLowerCase (c :: word) = lit "__proto__"))
      by (intros Hc; apply Hget in Hc; discriminate).
    split; split; try tauto; try discriminate. intros _. eauto.
  - rewrite H. destruct Hget as [Hget _]. specialize (Hget eq_refl).
    split; split; try tauto. intros [html Hhtml]. discriminate.
Qed.

Lemma code_throws_exactly_witness :
  forallb isWordChar (lit "Constructor") = true
  /\ match @nil ascii with d :: _ => isWordChar d = false | [] => True end
  /\ (code false (Some (language_prefix ++ lit "Constructor" ++ [])) (lit "x")
      = Some (Threw forEach_is_not_a_function)
      <-> toLowerCase (lit "Constructor") = lit "constructor"
          \/ toLowerCase (lit "Constructor") = lit "__proto__")
  /\ ((exists highlightedCode,
         code false (Some (language_prefix ++ lit "Constructor" ++ [])) (lit "x")
         = Some (Produced (CodeBlock (lit "Constructor")
                             (without_final_newline (lit "x")) highlightedCode)))
      <-> ~ (toLowerCase (lit "Constructor") = lit "constructor"
             \/ toLowerCase (lit "Constructor") = lit "__proto__")).
Proof.
  assert (H1 : forallb isWordChar (lit "Constructor") = true)
    by (vm_compute; reflexivity).
  split; [exact H1|]. split; [exact I|].
  exact (code_throws_exactly "C"%char (lit "onstructor") [] (lit "x") H1 I).
Defined.

(** ** The escape loses nothing *)

Lemma entity_form (c : ascii) :
  (c = amp /\ entity c = lit "&amp;")
  \/ (c = lt /\ entity c = lit "&lt;")
  \/ (c = gt /\ entity c = lit "&gt;")
  \/ (c = dquote /\ entity c = lit "&quot;")
  \/ (c = apos /\ entity c = lit "&#39;")
  \/ (c <> amp /\ entity c = [c]).
Proof.
  each_code_unit c;
    first [ left; split; reflexivity
          | right; left; split; reflexivity
          | right; right; left; split; reflexivity
          | right; right; right; left; split; reflexivity
          | right; right; right; right; left; split; reflexivity
          | right; right; right; right; right; split;
            [discriminate | reflexivity] ].
Qed.

(** X19.  Two codes with the same escaped text are the same code. *)
Theorem escape_is_injective (code code' : jsstring) :
  escapeHtml code = escapeHtml code' -> code = code'.
Proof.
  rewrite !escapeHtml_entities. intros H. injection H as H.
  revert code' H. induction code as [|c code IH]; intros [|d code'] H.
  - reflexivity.
  - exfalso. cbn [flat_map] in H. pose proof (entity_length d).
    apply (f_equal (@length ascii)) in H. rewrite length_app in H.
    simpl in H. lia.
  - exfalso. cbn [flat_map] in H. pose proof (entity_length c).
    apply (f_equal (@length ascii)) in H. rewrite length_app in H.
    simpl in H. lia.
  - cbn [flat_map] in H.
    assert (Hcd : c = d /\ flat_map entity code = flat_map entity code').
    { destruct (entity_form c) as [[-> Ec]|[[-> Ec]|[[-> Ec]|[[-> Ec]|[[-> Ec]|[Hc Ec]]]]]];
        destruct (entity_form d) as [[-> Ed]|[[-> Ed]|[[-> Ed]|[[-> Ed]|[[-> Ed]|[Hd Ed]]]]]];
        rewrite ?Ec, ?Ed in H;
        try (apply app_inv_head in H; split; [reflexivity | exact H]);
        unfold amp in *; cbn [lit list_ascii_of_string app] in H;
        try discriminate H;
        try (injection H as Hhead _; congruence).
      injection H as -> H. split; [reflexivity | exact H]. }
    destruct Hcd as [-> Hrest]. rewrite (IH code' Hrest). reflexivity.
Qed.

Lemma escape_is_injective_witness :
  escapeHtml (lit "a < b") = escapeHtml (lit "a < b")
  /\ lit "a < b" = lit "a < b".
Proof.
  assert (H : escapeHtml (lit "a < b") = escapeHtml (lit "a < b"))
    by (vm_compute; reflexivity).
  split; [exact H|].
  exact (escape_is_injective (lit "a < b") (lit "a < b") H).
Defined.
